(** * OZJ / OZT texture containers and the mesh-texture binder

    A shallow embedding of [src/ozj-loader-node.ts] and of the texture
    binding code of [src/bmd-to-glb.ts], with the properties of the
    specification stated and proved over it.

    Conventions of the embedding:
    - an [ArrayBuffer] / [Uint8Array] is a [list byte]; offsets and the
      numbers computed from them are [Z], as JavaScript numbers are signed;
    - a JavaScript exception is the [Throw] outcome of a computation in the
      monad [M]; the state mutated before the throw is kept, as it is in
      JavaScript;
    - every read of the input buffer and every call of an external codec is
      recorded in the [events] of the [World], so that "which bytes were
      read" and "what was handed to the codec" are statements about the
      program's run;
    - the external collaborators (sharp, the TGA codec, the file system,
      Node's [path]) are the fields of the record [Externals]. *)

From Stdlib Require Import ZArith Lia List.
From Stdlib Require Import Strings.String Strings.Ascii Strings.Byte.
From stdpp Require Import base option list list_numbers gmap strings.

Open Scope string_scope.
Open Scope list_scope.
Open Scope Z_scope.

(** ** Values *)

(** The numeric value of a byte, as [u8[i]] yields it. *)
Definition byteZ (b : byte) : Z := Z.of_N (Byte.to_N b).

(** What [{ buffer, width, height }] carries: raw RGBA pixels. *)
Record Bitmap := mkBitmap {
  buffer : list byte;
  width  : Z;
  height : Z
}.

(** A [THREE.DataTexture] as the binder builds it.  [colorSpace], the
    wrapping modes and [flipY] are the constants the code assigns;
    assigning [needsUpdate = true] increments [tex_version]. *)
Inductive ColorSpace := NoColorSpace | SRGBColorSpace.
Inductive Wrapping := RepeatWrapping | ClampToEdgeWrapping | MirroredRepeatWrapping.

Record Texture := mkTexture {
  image_data   : list byte;
  image_width  : Z;
  image_height : Z;
  image_src    : option string;
  colorSpace   : ColorSpace;
  wrapS        : Wrapping;
  wrapT        : Wrapping;
  flipY        : bool;
  tex_name     : string;
  tex_version  : nat
}.

(** The blending constants of three.js. *)
Inductive Blending :=
  | NoBlending | NormalBlending | AdditiveBlending
  | SubtractiveBlending | MultiplyBlending | CustomBlending.

(** The fields of a material that the binder touches.  Assigning
    [needsUpdate = true] increments the material's [version]. *)
Record Material := mkMaterial {
  map         : option Texture;
  color       : Z;
  transparent : bool;
  blending    : Blending;
  depthWrite  : bool;
  version     : nat
}.

(** ** Exceptions and outcomes *)

Inductive exn :=
  | Error (msg : string)
  | TypeError (msg : string)
  | RangeError (msg : string).

(** [String(error)] / [`${error}`]. *)
Definition exn_to_string (e : exn) : string :=
  match e with
  | Error m => "Error: " +:+ m
  | TypeError m => "TypeError: " +:+ m
  | RangeError m => "RangeError: " +:+ m
  end.

Inductive outcome (A : Type) :=
  | Return (a : A)
  | Throw (e : exn).
Arguments Return {A} a.
Arguments Throw {A} e.

(** ** The world a conversion job runs in *)

(** Observable accesses: [Read off n] is a read of [n] bytes of the input
    buffer at offset [off]; [Codec op input] is a call of an external codec
    operation on [input]. *)
Inductive Event :=
  | Read (offset len : Z)
  | Codec (op : string) (input : list byte).

Record World := mkWorld {
  events    : list Event;          (* oldest first *)
  console   : list string;         (* lines written by console.warn / error *)
  materials : gmap nat Material;   (* the material objects, by identity *)
  disposed  : list string          (* names of the textures disposed *)
}.

Definition M (A : Type) : Type := World → World * outcome A.

Definition ret {A} (a : A) : M A := λ w, (w, Return a).
Definition throw {A} (e : exn) : M A := λ w, (w, Throw e).
Definition bind {A B} (m : M A) (k : A → M B) : M B :=
  λ w, match m w with
       | (w', Return a) => k a w'
       | (w', Throw e) => (w', Throw e)
       end.
(** [try { m } catch (error) { h error }] *)
Definition try_catch {A} (m : M A) (h : exn → M A) : M A :=
  λ w, match m w with
       | (w', Throw e) => h e w'
       | r => r
       end.

Notation "'let*' x := m 'in' k" := (bind m (λ x, k))
  (at level 10, x pattern, m at level 100, k at level 200).
Notation "m ;;; k" := (bind m (λ _, k))
  (at level 100, k at level 200, right associativity).

Definition emit (e : Event) : M unit :=
  λ w, (mkWorld (events w ++ [e]) (console w) (materials w) (disposed w), Return tt).
Definition console_log (line : string) : M unit :=
  λ w, (mkWorld (events w) (console w ++ [line]) (materials w) (disposed w), Return tt).

(** [for (const x of xs) s = body(x, s)], with the loop-carried variables
    threaded as [s]. *)
Fixpoint for_each {A S} (xs : list A) (body : A → S → M S) (s : S) : M S :=
  match xs with
  | [] => ret s
  | x :: xs' => let* s' := body x s in for_each xs' body s'
  end.

(** ** Typed-array and DataView accesses *)

Abbreviation Buffer := (list byte).

Definition size_of (buf : Buffer) : Z := Z.of_nat (length buf).

(** The element at a JavaScript index; [None] is [undefined]. *)
Definition at_index (buf : Buffer) (i : Z) : option byte :=
  if i <? 0 then None else buf !! Z.to_nat i.

(** [u8[i]]: out of range a typed array yields [undefined]. *)
Definition u8_get (u8 : Buffer) (i : Z) : M (option byte) :=
  emit (Read i 1) ;;; ret (at_index u8 i).

(** [rgba[i] = v]: [undefined] is stored as 0, and a store out of range is
    dropped. *)
Definition u8_set (arr : Buffer) (i : Z) (v : option byte) : Buffer :=
  if i <? 0 then arr else <[Z.to_nat i := default x00 v]> arr.

(** [v === n] for an element read from a [Uint8Array]. *)
Definition strict_eq (v : option byte) (n : Z) : bool :=
  match v with
  | Some b => byteZ b =? n
  | None => false
  end.

(** [view.getUint8(off)]: a [DataView] throws out of range. *)
Definition view_getUint8 (buf : Buffer) (off : Z) : M Z :=
  emit (Read off 1) ;;;
  match at_index buf off with
  | Some b => ret (byteZ b)
  | None => throw (RangeError "Offset is outside the bounds of the DataView")
  end.

(** [view.getInt16(off, true)]: little-endian, two's complement. *)
Definition view_getInt16 (buf : Buffer) (off : Z) : M Z :=
  emit (Read off 2) ;;;
  match at_index buf off, at_index buf (off + 1) with
  | Some lo, Some hi =>
      let u := byteZ lo + 256 * byteZ hi in
      ret (if u <? 32768 then u else u - 65536)
  | _, _ => throw (RangeError "Offset is outside the bounds of the DataView")
  end.

(** [buf.slice(begin)]: a negative [begin] counts from the end. *)
Definition slice_from (buf : Buffer) (begin : Z) : Buffer :=
  let start := if begin <? 0 then Z.max (size_of buf + begin) 0
               else Z.min begin (size_of buf) in
  drop (Z.to_nat start) buf.

(** ** External collaborators *)

Record Externals := mkExternals {
  (* sharp(input).ensureAlpha().raw().toBuffer() *)
  sharp_toBuffer : Buffer → outcome Buffer;
  (* sharp(input).metadata(), reduced to (width, height) *)
  sharp_metadata : Buffer → outcome (Z * Z);
  (* sharp(raw, {raw: {width, height, channels: 4}}).png().toBuffer() *)
  sharp_png : Buffer → Z → Z → outcome Buffer;
  (* decodeTga(bytes).image, as (data, width, height) *)
  decodeTga : Buffer → outcome Bitmap;
  (* buffer.toString('base64') *)
  base64 : Buffer → string;
  (* fs.readFileSync(path) *)
  readFileSync : string → outcome Buffer;
  (* path.extname and path.basename of Node *)
  path_extname : string → string;
  path_basename : string → string;
  (* path.basename(p, suffix) *)
  path_basename_suffix : string → string → string
}.

(** An external call: logged, and its exception propagated. *)
Definition call_codec {A} (op : string) (input : Buffer) (r : outcome A) : M A :=
  emit (Codec op input) ;;;
  match r with
  | Return a => ret a
  | Throw e => throw e
  end.

Section Loader.

Variable ext : Externals.

(** ** [ozj-loader-node.ts] *)

(** The loop of lines 13-18, over the values [i] takes; the result is
    [jpgStart]. *)
Fixpoint scan_marker (u8 : Buffer) (idx : list Z) : M Z :=
  match idx with
  | [] => ret (-1)
  | i :: rest =>
      let* b0 := u8_get u8 i in
      let* hit :=
        (if strict_eq b0 255 then
           let* b1 := u8_get u8 (i + 1) in
           if strict_eq b1 216 then
             let* b2 := u8_get u8 (i + 2) in
             ret (strict_eq b2 255)
           else ret false
         else ret false) in
      if hit then ret i else scan_marker u8 rest
  end.

(** What [convertOzjToBuffer] decides before it decodes. *)
Inductive Container :=
  | OZJ (jpgStart : Z)
  | OZT (nx ny : Z).

(** Lines 8-40 of [convertOzjToBuffer]: the dispatch. *)
Definition sniff (buf : Buffer) : M Container :=
  let size := size_of buf in
  let* jpgStart := scan_marker buf (seqZ 20 (Z.min 30 (size - 2) - 20)) in
  if negb (jpgStart =? -1) then ret (OZJ jpgStart)
  else
    if size <? 22 then throw (Error "File too small for OZT")
    else
      let* nx := view_getInt16 buf 16 in
      let* ny := view_getInt16 buf 18 in
      let* depth := view_getUint8 buf 20 in
      let expectedSize := 22 + nx * ny * 4 in
      let looksLikeOzt :=
        (0 <? nx) && (0 <? ny) &&
        (nx <=? 1024) && (ny <=? 1024) &&
        (depth =? 32) &&
        (expectedSize <=? size) in
      if negb looksLikeOzt then throw (Error "Unsupported OZ? file")
      else ret (OZT nx ny).

Definition ozjToPng (buf : Buffer) (jpgStart : Z) : M Bitmap :=
  let* isTopDownSort := view_getUint8 buf 17 in
  let jpegBuf := slice_from buf jpgStart in
  try_catch
    (let* rawBuffer := call_codec "sharp.toBuffer" jpegBuf (sharp_toBuffer ext jpegBuf) in
     let* metadata := call_codec "sharp.metadata" jpegBuf (sharp_metadata ext jpegBuf) in
     ret (mkBitmap rawBuffer (fst metadata) (snd metadata)))
    (λ error,
       console_log ("OZJ decode error: " +:+ exn_to_string error) ;;;
       throw (Error ("Failed to decode JPEG: " +:+ exn_to_string error))).

(** The body of the inner loop of [oztToPng], for column [x] of the row
    that starts at [dstRowStart]; the loop carries [offset] and [rgba]. *)
Definition ozt_pixel (src : Buffer) (dstRowStart : Z) (x : Z)
    (s : Z * Buffer) : M (Z * Buffer) :=
  let '(offset, rgba) := s in
  let* b := u8_get src offset in
  let* g := u8_get src (offset + 1) in
  let* r := u8_get src (offset + 2) in
  let* a := u8_get src (offset + 3) in
  let i := dstRowStart + x * 4 in
  let rgba := u8_set rgba i r in
  let rgba := u8_set rgba (i + 1) g in
  let rgba := u8_set rgba (i + 2) b in
  let rgba := u8_set rgba (i + 3) a in
  ret (offset + 4, rgba).

Definition ozt_row (src : Buffer) (nx : Z) (y : Z)
    (s : Z * Buffer) : M (Z * Buffer) :=
  let dstRowStart := y * nx * 4 in
  for_each (seqZ 0 nx) (ozt_pixel src dstRowStart) s.

Definition oztToPng (buf : Buffer) (nx ny : Z) : M Bitmap :=
  let src := buf in
  if nx * ny * 4 <? 0 then throw (RangeError "Invalid typed array length")
  else
    let rgba := replicate (Z.to_nat (nx * ny * 4)) x00 in
    let* s := for_each (seqZ 0 ny) (ozt_row src nx) (22, rgba) in
    ret (mkBitmap (snd s) nx ny).

Definition convertOzjToBuffer (buf : Buffer) : M Bitmap :=
  let* c := sniff buf in
  match c with
  | OZJ jpgStart => ozjToPng buf jpgStart
  | OZT nx ny => oztToPng buf nx ny
  end.

Definition convertTgaToBuffer (tgaBuffer : Buffer) : M Bitmap :=
  call_codec "decodeTga" tgaBuffer (decodeTga ext tgaBuffer).

Definition png_data_url (b : Bitmap) : M string :=
  let* pngBuffer :=
    call_codec "sharp.png" (buffer b) (sharp_png ext (buffer b) (width b) (height b)) in
  ret ("data:image/png;base64," +:+ base64 ext pngBuffer).

Definition convertTgaToDataUrl (buf : Buffer) : M string :=
  let* b := convertTgaToBuffer buf in png_data_url b.

Definition convertOzjToDataUrl (buf : Buffer) : M string :=
  let* b := convertOzjToBuffer buf in png_data_url b.

End Loader.

(** ** Strings *)

(** [s.toLowerCase()], on ASCII. *)
Definition lower_ascii (c : ascii) : ascii :=
  let n := nat_of_ascii c in
  if ((65 <=? n) && (n <=? 90))%nat then ascii_of_nat (n + 32) else c.

Fixpoint toLowerCase (s : string) : string :=
  match s with
  | EmptyString => EmptyString
  | String c s' => String (lower_ascii c) (toLowerCase s')
  end.

Definition is_dot (c : ascii) : bool := Ascii.eqb c ".".
(** The class [[\\/]]. *)
Definition is_sep (c : ascii) : bool :=
  Ascii.eqb c "/" || Ascii.eqb c (ascii_of_nat 92).

Fixpoint has_char (p : ascii → bool) (s : string) : bool :=
  match s with
  | EmptyString => false
  | String c s' => p c || has_char p s'
  end.

(** What follows the last character of class [p], when there is one. *)
Fixpoint split_last (p : ascii → bool) (s : string) : option string :=
  match s with
  | EmptyString => None
  | String c s' =>
      match split_last p s' with
      | Some t => Some t
      | None => if p c then Some s' else None
      end
  end.

(** [s.split(sep).pop()]: the last piece, the whole string when no
    separator occurs. *)
Definition split_pop (p : ascii → bool) (s : string) : string :=
  default s (split_last p s).

(** [s.replace(/\.[^.]+$/, '')]: the match starts at a dot that is followed
    by at least one character, none of them a dot, up to the end. *)
Fixpoint strip_ext (s : string) : string :=
  match s with
  | EmptyString => EmptyString
  | String c s' =>
      if is_dot c && negb (has_char is_dot s') && negb (String.eqb s' "")
      then EmptyString
      else String c (strip_ext s')
  end.

(** [s.slice(1)] *)
Definition slice1 (s : string) : string :=
  match s with
  | EmptyString => EmptyString
  | String _ s' => s'
  end.

(** ** The equivalence table of [loadAndApplyTexture] *)

(** [equivExt] is an object literal, so [equivExt[key]] also finds what
    [Object.prototype] provides. *)
Inductive Lookup :=
  | OwnArray (l : list string)   (* an entry of the table *)
  | Inherited                    (* a property of Object.prototype *)
  | Undefined.

Definition object_prototype_keys : list string :=
  [ "constructor"; "__proto__"; "hasOwnProperty"; "isPrototypeOf";
    "propertyIsEnumerable"; "toLocaleString"; "toString"; "valueOf";
    "__defineGetter__"; "__defineSetter__"; "__lookupGetter__";
    "__lookupSetter__" ].

Definition mem_string (x : string) (l : list string) : bool :=
  existsb (String.eqb x) l.

Definition equivExt_table : list (string * list string) :=
  [ ("jpg",  ["ozj"; "jpeg"]);
    ("jpeg", ["ozj"; "jpg"]);
    ("ozj",  ["jpg"; "jpeg"; "png"]);
    ("png",  ["ozj"; "ozt"]);
    ("tga",  ["ozt"; "png"]);
    ("ozt",  ["tga"; "png"]) ].

Fixpoint assoc (key : string) (t : list (string * list string)) : option (list string) :=
  match t with
  | [] => None
  | (k, v) :: t' => if String.eqb key k then Some v else assoc key t'
  end.

Definition equivExt (key : string) : Lookup :=
  match assoc key equivExt_table with
  | Some l => OwnArray l
  | None => if mem_string key object_prototype_keys then Inherited else Undefined
  end.

(** [v?.includes(x)]: [undefined] when [v] is, a [TypeError] when [v] has
    no [includes] method.  [None] is [undefined]. *)
Definition opt_includes (v : Lookup) (x : string) : outcome (option bool) :=
  match v with
  | OwnArray l => Return (Some (mem_string x l))
  | Undefined => Return None
  | Inherited => Throw (TypeError "equivExt[...]?.includes is not a function")
  end.

Definition truthy (v : option bool) : bool := default false v.

(** The expression [extMatch] of lines 169-172, reduced to its truth value;
    [||] evaluates its right operand only when the left one is falsy. *)
Definition extMatch (wantedExt fileExt : string) : outcome bool :=
  if String.eqb wantedExt fileExt then Return true
  else
    match opt_includes (equivExt wantedExt) fileExt with
    | Throw e => Throw e
    | Return a =>
        if truthy a then Return true
        else
          match opt_includes (equivExt fileExt) wantedExt with
          | Throw e => Throw e
          | Return b => Return (truthy b)
          end
    end.

(** [normalizeWanted] of lines 157-162, as [(base, ext)]. *)
Definition normalizeWanted (path : string) : string * string :=
  let name := toLowerCase (split_pop is_sep path) in
  let ext := split_pop is_dot name in
  let base := strip_ext name in
  (base, ext).

(** ** The scene *)

(** An [Object3D]: whether it is a mesh, its [userData.texturePath], the
    identity of its material object, and its children. *)
#[warnings="-register-all"]
Inductive Object3D :=
  mkObject3D (isMesh : bool) (texturePath : option string)
             (material : nat) (children : list Object3D).

Definition isMesh (o : Object3D) : bool :=
  let '(mkObject3D b _ _ _) := o in b.
Definition texturePath (o : Object3D) : option string :=
  let '(mkObject3D _ p _ _) := o in p.
Definition material (o : Object3D) : nat :=
  let '(mkObject3D _ _ m _) := o in m.
Definition children (o : Object3D) : list Object3D :=
  let '(mkObject3D _ _ _ c) := o in c.

(** [group.traverse(callback)] visits the object, then its descendants. *)
Fixpoint traverse (o : Object3D) : list Object3D :=
  let '(mkObject3D _ _ _ cs) := o in
  o :: (fix over (l : list Object3D) : list Object3D :=
          match l with
          | [] => []
          | c :: l' => (traverse c ++ over l')%list
          end) cs.

(** The guard [(obj as THREE.Mesh).isMesh && obj.userData.texturePath]:
    the tag when the object is a mesh with a non-empty one. *)
Definition tagged (o : Object3D) : option string :=
  if isMesh o then
    match texturePath o with
    | Some p => if String.eqb p "" then None else Some p
    | None => None
    end
  else None.

(** ** Material objects *)

Definition set_map (t : option Texture) (m : Material) : Material :=
  mkMaterial t (color m) (transparent m) (blending m) (depthWrite m) (version m).
Definition set_color (c : Z) (m : Material) : Material :=
  mkMaterial (map m) c (transparent m) (blending m) (depthWrite m) (version m).
Definition set_transparent (b : bool) (m : Material) : Material :=
  mkMaterial (map m) (color m) b (blending m) (depthWrite m) (version m).
Definition set_blending (b : Blending) (m : Material) : Material :=
  mkMaterial (map m) (color m) (transparent m) b (depthWrite m) (version m).
Definition set_depthWrite (b : bool) (m : Material) : Material :=
  mkMaterial (map m) (color m) (transparent m) (blending m) b (version m).
(** [mat.needsUpdate = true] *)
Definition set_needsUpdate (m : Material) : Material :=
  mkMaterial (map m) (color m) (transparent m) (blending m) (depthWrite m) (S (version m)).

(** [const mat = mesh.material], followed by a first access of a field. *)
Definition get_material (id : nat) : M Material :=
  λ w, match materials w !! id with
       | Some m => (w, Return m)
       | None => (w, Throw (TypeError "Cannot read properties of undefined"))
       end.

(** An assignment to fields of the material object [id]. *)
Definition update_material (id : nat) (f : Material → Material) : M unit :=
  λ w, (mkWorld (events w) (console w) (alter f id (materials w)) (disposed w),
        Return tt).

(** [texture.dispose()] *)
Definition dispose (t : Texture) : M unit :=
  λ w, (mkWorld (events w) (console w) (materials w) (disposed w ++ [tex_name t]),
        Return tt).

Definition lift {A} (r : outcome A) : M A :=
  match r with
  | Return a => ret a
  | Throw e => throw e
  end.

(** [foundTextures]: the entries of the object in the order [for ... in]
    and [Object.entries] enumerate them. *)
Abbreviation FoundTextures := (list (string * list string)).

Section Binder.

Variable ext : Externals.

(** ** [bmd-to-glb.ts] *)

(** [new THREE.DataTexture(data, width, height, THREE.RGBAFormat)] *)
Definition DataTexture (b : Bitmap) : Texture :=
  mkTexture (buffer b) (width b) (height b) None
            NoColorSpace ClampToEdgeWrapping ClampToEdgeWrapping false "" 0.

Definition set_src (src : string) (t : Texture) : Texture :=
  mkTexture (image_data t) (image_width t) (image_height t) (Some src)
            (colorSpace t) (wrapS t) (wrapT t) (flipY t) (tex_name t) (tex_version t).

(** [tex.needsUpdate = true] *)
Definition texture_needsUpdate (t : Texture) : Texture :=
  mkTexture (image_data t) (image_width t) (image_height t) (image_src t)
            (colorSpace t) (wrapS t) (wrapT t) (flipY t) (tex_name t)
            (S (tex_version t)).

(** Lines 139-142 and 259-262: colour space, wrapping, [flipY], name. *)
Definition finish_texture (name : string) (t : Texture) : Texture :=
  mkTexture (image_data t) (image_width t) (image_height t) (image_src t)
            SRGBColorSpace RepeatWrapping RepeatWrapping false name (tex_version t).

(** Lines 111-142 of [loadAndApplyTexture]: the file is read and decoded
    before any mesh is looked at. *)
Definition load_texture (filePath : string) : M Texture :=
  let ext_ := toLowerCase (path_extname ext filePath) in
  let* buffer := lift (readFileSync ext filePath) in
  let* tex :=
    (if String.eqb ext_ ".tga" then
       let* b := convertTgaToBuffer ext buffer in
       let tex := DataTexture b in
       let* dataUrl := convertTgaToDataUrl ext buffer in
       ret (texture_needsUpdate (set_src dataUrl tex))
     else if String.eqb ext_ ".ozj" || String.eqb ext_ ".ozt" then
       let* b := convertOzjToBuffer ext buffer in
       let tex := DataTexture b in
       let* dataUrl := convertOzjToDataUrl ext buffer in
       ret (texture_needsUpdate (set_src dataUrl tex))
     else
       let* rawBuffer := call_codec "sharp.toBuffer" buffer (sharp_toBuffer ext buffer) in
       let* metadata := call_codec "sharp.metadata" buffer (sharp_metadata ext buffer) in
       let tex := DataTexture (mkBitmap rawBuffer (fst metadata) (snd metadata)) in
       let mime := if String.eqb ext_ ".jpg" then "jpeg" else "png" in
       let dataUrl := "data:image/" +:+ mime +:+ ";base64," +:+ base64 ext buffer in
       ret (texture_needsUpdate (set_src dataUrl tex))) in
  ret (finish_texture (path_basename ext filePath) tex).

(** An element of [meshList]. *)
Record MeshEntry := mkMeshEntry {
  mesh : Object3D;
  path : string;
  isMatch : bool
}.

(** The callback of lines 165-176 on one object. *)
Definition collect_mesh (fileBase fileExt : string) (obj : Object3D)
    (meshList : list MeshEntry) : M (list MeshEntry) :=
  match tagged obj with
  | Some wantedPath =>
      let '(wantedBase, wantedExt) := normalizeWanted wantedPath in
      let* extMatch_ := lift (extMatch wantedExt fileExt) in
      let isMatch_ := extMatch_ && String.eqb wantedBase fileBase in
      ret (meshList ++ [mkMeshEntry obj wantedPath isMatch_])%list
  | None => ret meshList
  end.

(** [if (mat.map) mat.map.dispose()] *)
Definition dispose_map (mat : Material) : M unit :=
  match map mat with
  | Some t => dispose t
  | None => ret tt
  end.

(** The callback of lines 180-198, for a file of extension ozj or ozt. *)
Definition apply_oz (fileExt : string) (tex : Texture) (m : MeshEntry)
    (applied : bool) : M bool :=
  if isMatch m then
    let id := material (mesh m) in
    let* mat := get_material id in
    dispose_map mat ;;;
    update_material id (set_map (Some tex)) ;;;
    update_material id (set_color 16777215) ;;;
    (if String.eqb fileExt "ozt" then
       update_material id (set_transparent true) ;;;
       update_material id (set_blending NormalBlending) ;;;
       update_material id (set_depthWrite false)
     else
       update_material id (set_transparent false) ;;;
       update_material id (set_blending NoBlending) ;;;
       update_material id (set_depthWrite true)) ;;;
    update_material id set_needsUpdate ;;;
    ret true
  else ret applied.

(** The callback of lines 206-215, for every other file. *)
Definition apply_plain (tex : Texture) (m : MeshEntry)
    (applied : bool) : M bool :=
  if isMatch m then
    let id := material (mesh m) in
    let* mat := get_material id in
    dispose_map mat ;;;
    update_material id (set_map (Some tex)) ;;;
    update_material id (set_color 16777215) ;;;
    update_material id set_needsUpdate ;;;
    ret true
  else ret applied.

Definition no_match_warning (fileName : string) : string :=
  "No matching mesh found for " +:+ String (ascii_of_nat 34) fileName
    +:+ String (ascii_of_nat 34) "".

Definition loadAndApplyTexture (group : Object3D) (filePath : string) : M unit :=
  let ext_ := toLowerCase (path_extname ext filePath) in
  let* tex := load_texture filePath in
  let fileName := path_basename ext filePath in
  let fileBase := strip_ext (toLowerCase fileName) in
  let fileExt := slice1 ext_ in
  let* meshList := for_each (traverse group) (collect_mesh fileBase fileExt) [] in
  if String.eqb fileExt "ozj" || String.eqb fileExt "ozt" then
    let* applied := for_each meshList (apply_oz fileExt tex) false in
    if negb applied then console_log (no_match_warning fileName) else ret tt
  else
    let* applied := for_each meshList (apply_plain tex) false in
    if negb applied then console_log (no_match_warning fileName) else ret tt.

(** [texturePaths[0]], handed to a [path] function: [undefined] is
    refused by Node with a [TypeError]. *)
Definition first_path (texturePaths : list string) : M string :=
  match texturePaths with
  | p :: _ => ret p
  | [] => throw (TypeError "The path argument must be of type string. Received undefined")
  end.

(** Lines 20-26 of [convertBmdToGlb], given what the model parser and the
    texture search returned.  The export and the write that follow belong
    to the external serializer. *)
Definition convertBmdToGlb (group : Object3D) (foundTextures : FoundTextures) : M unit :=
  if (0 <? length foundTextures)%nat then
    for_each foundTextures
      (λ entry _,
         let texturePaths := snd entry in
         let* texturePath := first_path texturePaths in
         loadAndApplyTexture group texturePath) tt
  else ret tt.

(** The callback of [applyTextureToMeshes] on one object. *)
Definition apply_to_mesh (textureName : string) (texture : Texture)
    (obj : Object3D) (_ : unit) : M unit :=
  match tagged obj with
  | Some wantedPath =>
      let wantedBase :=
        toLowerCase (path_basename_suffix ext wantedPath (path_extname ext wantedPath)) in
      if String.eqb wantedBase textureName then
        let id := material obj in
        let* mat := get_material id in
        dispose_map mat ;;;
        update_material id (set_map (Some texture)) ;;;
        update_material id (set_color 16777215) ;;;
        let ext_ := toLowerCase (path_extname ext (tex_name texture)) in
        (if String.eqb ext_ ".ozt" then
           update_material id (set_transparent true) ;;;
           update_material id (set_blending NormalBlending) ;;;
           update_material id (set_depthWrite false)
         else
           update_material id (set_transparent false) ;;;
           update_material id (set_blending NoBlending) ;;;
           update_material id (set_depthWrite true)) ;;;
        update_material id set_needsUpdate
      else ret tt
  | None => ret tt
  end.

Definition applyTextureToMeshes (group : Object3D) (textureName : string)
    (texture : Texture) : M unit :=
  for_each (traverse group) (apply_to_mesh textureName texture) tt.

(** The decoding of lines 233-262 of [loadAndApplyTextures]. *)
Definition load_texture_plain (texturePath : string) (ext_ : string) : M Texture :=
  let* b :=
    (if String.eqb ext_ ".tga" then
       let* tgaBuffer := lift (readFileSync ext texturePath) in
       convertTgaToBuffer ext tgaBuffer
     else if String.eqb ext_ ".ozj" || String.eqb ext_ ".ozt" then
       let* ozjBuffer := lift (readFileSync ext texturePath) in
       convertOzjToBuffer ext ozjBuffer
     else
       let* imgBuffer := lift (readFileSync ext texturePath) in
       let* rawBuffer := call_codec "sharp.toBuffer" imgBuffer (sharp_toBuffer ext imgBuffer) in
       let* metadata := call_codec "sharp.metadata" imgBuffer (sharp_metadata ext imgBuffer) in
       ret (mkBitmap rawBuffer (fst metadata) (snd metadata))) in
  ret (finish_texture (path_basename ext texturePath)
         (texture_needsUpdate (DataTexture b))).

Definition loadAndApplyTextures (group : Object3D) (foundTextures : FoundTextures) : M unit :=
  for_each foundTextures
    (λ entry _,
       let textureName := fst entry in
       let texturePaths := snd entry in
       let* texturePath := first_path texturePaths in
       let ext_ := toLowerCase (path_extname ext texturePath) in
       try_catch
         (let* texture := load_texture_plain texturePath ext_ in
          applyTextureToMeshes group textureName texture)
         (λ error,
            console_log ("Failed to load texture " +:+ texturePath +:+ ": "
                         +:+ exn_to_string error))) tt.

End Binder.

(** * Vocabulary of the properties *)

(** ** Runs of the monad *)

Definition add_events (w : World) (evs : list Event) : World :=
  mkWorld (events w ++ evs) (console w) (materials w) (disposed w).

(** The event is a read, and it stays inside a buffer of [size] bytes. *)
Definition in_bounds (size : Z) (e : Event) : Prop :=
  match e with
  | Read off n => 0 ≤ off ∧ 0 < n ∧ off + n ≤ size
  | Codec _ _ => False
  end.

(** ** The marker scan *)

(** The condition of line 14 at offset [i]. *)
Definition marker_here (buf : Buffer) (i : Z) : bool :=
  strict_eq (at_index buf i) 255 &&
  strict_eq (at_index buf (i + 1)) 216 &&
  strict_eq (at_index buf (i + 2)) 255.

Definition first_hit (buf : Buffer) (idx : list Z) : Z :=
  match List.find (marker_here buf) idx with
  | Some i => i
  | None => -1
  end.

(** ** The dispatch of [convertOzjToBuffer] *)

Definition scan_window (buf : Buffer) : list Z :=
  seqZ 20 (Z.min 30 (size_of buf - 2) - 20).

Definition byte_at (buf : Buffer) (i : Z) : byte := default x00 (at_index buf i).

(** The value [getInt16(off, true)] returns inside the buffer. *)
Definition int16_at (buf : Buffer) (off : Z) : Z :=
  let u := byteZ (byte_at buf off) + 256 * byteZ (byte_at buf (off + 1)) in
  if u <? 32768 then u else u - 65536.

Definition looksLikeOzt (buf : Buffer) : bool :=
  let nx := int16_at buf 16 in
  let ny := int16_at buf 18 in
  (0 <? nx) && (0 <? ny) && (nx <=? 1024) && (ny <=? 1024) &&
  (byteZ (byte_at buf 20) =? 32) && (22 + nx * ny * 4 <=? size_of buf).

(** The outcome of [sniff], read off its text. *)
Definition sniff_outcome (buf : Buffer) : outcome Container :=
  let k := first_hit buf (scan_window buf) in
  if negb (k =? -1) then Return (OZJ k)
  else if size_of buf <? 22 then Throw (Error "File too small for OZT")
  else if looksLikeOzt buf then Return (OZT (int16_at buf 16) (int16_at buf 18))
  else Throw (Error "Unsupported OZ? file").

(** ** The vocabulary of the specification *)

(** The error kinds of the specification (section 7). *)
Inductive ErrorKind :=
  | UnsupportedContainer
  | TruncatedData
  | DecodeError
  | OtherError.

(** [s.startsWith(p)] *)
Fixpoint starts_with (p s : string) : bool :=
  match p with
  | EmptyString => true
  | String a p' =>
      match s with
      | EmptyString => false
      | String b s' => Ascii.eqb a b && starts_with p' s'
      end
  end.

(** The kind of an exception of the code.  The loader throws plain [Error]s
    that differ by their message only: the two failures of the dispatch
    are the unsupported-container ones of section 4.1, the failure wrapped
    by [ozjToPng] is the decode error of section 4.2. *)
Definition errorKind (e : exn) : ErrorKind :=
  match e with
  | Error m =>
      if String.eqb m "File too small for OZT" || String.eqb m "Unsupported OZ? file"
      then UnsupportedContainer
      else if starts_with "Failed to decode JPEG: " m then DecodeError
      else OtherError
  | _ => OtherError
  end.

(** The marker FF D8 FF at offset [k], all three bytes inside the buffer. *)
Definition marker_at (buf : Buffer) (k : Z) : Prop :=
  at_index buf k = Some xff ∧
  at_index buf (k + 1) = Some xd8 ∧
  at_index buf (k + 2) = Some xff.

(** No marker at any offset 20..29. *)
Definition no_marker (buf : Buffer) : Prop :=
  ∀ k, 20 ≤ k ≤ 29 → ¬ marker_at buf k.

(** A 16-bit little-endian field, as an unsigned number. *)
Definition u16le_at (buf : Buffer) (off : Z) : Z :=
  byteZ (byte_at buf off) + 256 * byteZ (byte_at buf (off + 1)).

(** The OZT condition of section 4.1 for width [wd] and height [ht]. *)
Definition ozt_valid (buf : Buffer) (wd ht : Z) : Prop :=
  wd = u16le_at buf 16 ∧ ht = u16le_at buf 18 ∧
  0 < wd ∧ 0 < ht ∧ wd ≤ 1024 ∧ ht ≤ 1024 ∧
  byteZ (byte_at buf 20) = 32 ∧
  22 + wd * ht * 4 ≤ size_of buf.

(** ** The OZT decoder *)

(** Where channel [c] of an RGBA quad comes from in a BGRA quad. *)
Definition bgra_source (c : Z) : Z :=
  if c =? 0 then 2 else if c =? 2 then 0 else c.

(** The loop invariant of [oztToPng]: with [p] pixels done, [offset] is
    past [p] source quads and the first [p] quads of [rgba] are filled. *)
Definition decoded_upto (src : Buffer) (len : nat) (p : Z) (s : Z * Buffer) : Prop :=
  s.1 = 22 + 4 * p ∧
  length s.2 = len ∧
  ∀ q c, 0 ≤ q < p → 0 ≤ c < 4 →
    at_index s.2 (4 * q + c) = Some (byte_at src (22 + 4 * q + bgra_source c)).

(** ** The OZJ decoder *)

(** The calls of external codecs among the events of a run. *)
Definition codec_calls (evs : list Event) : list Event :=
  List.filter (λ e, match e with Codec _ _ => true | Read _ _ => false end) evs.


(** ** Concrete inputs *)

Definition empty_world : World := mkWorld [] [] ∅ [].

(** A 22-byte OZT header declaring 2 x 1 pixels of depth 32. *)
Definition ozt_header_2x1 (reserved : Buffer) (r21 : byte) : Buffer :=
  reserved ++ [x02; x00; x01; x00; x20; r21].

Definition two_quads : Buffer := [x00; x00; xff; xff; x10; x20; x30; xff].

Definition example_ozt : Buffer :=
  ozt_header_2x1 (replicate 16 x00) x00 ++ two_quads.

(** The same header with the pixel data cut off. *)
Definition truncated_ozt : Buffer := ozt_header_2x1 (replicate 16 x00) x00.

(** A 22-byte header of depth 24, which fails the OZT condition. *)
Definition depth24_ozt : Buffer :=
  replicate 16 x00 ++ [x02; x00; x01; x00; x18; x00] ++ two_quads.

(** Twenty header bytes followed by the start of a JPEG stream. *)
Definition example_ozj : Buffer :=
  replicate 20 x00 ++ [xff; xd8; xff; xe0; x00; x10].

Definition too_small : Buffer := replicate 10 x00.

(** A model of Node's POSIX [path] functions on paths that do not end in a
    slash, for the concrete runs below. *)
Definition posix_basename (p : string) : string :=
  split_pop (λ c, Ascii.eqb c "/") p.

Definition posix_extname (p : string) : string :=
  let b := posix_basename p in
  match b with
  | EmptyString => EmptyString
  | String c rest =>
      match split_last is_dot rest with
      | Some e => String "." e
      | None => EmptyString
      end
  end.

Fixpoint drop_suffix (suffix s : string) : string :=
  match s with
  | EmptyString => EmptyString
  | String c s' => if String.eqb s' suffix then String c EmptyString
                   else String c (drop_suffix suffix s')
  end.

Definition posix_basename_suffix (p suffix : string) : string :=
  let b := posix_basename p in
  if String.eqb suffix "" then b else drop_suffix suffix b.

(** A one-pixel bitmap, what the toy codecs below decode everything to. *)
Definition red_pixel : Bitmap := mkBitmap [xff; x00; x00; xff] 1 1.

(** A small file system. *)
Definition demo_files (p : string) : outcome Buffer :=
  if String.eqb p "tex/wing.ozt" then Return example_ozt
  else if String.eqb p "tex/wing.tga" then Return [x00]
  else if String.eqb p "tex/weapon01.jpg" then Return [xff; xd8; xff]
  else if String.eqb p "tex/a.tga" then Return [x00]
  else if String.eqb p "tex/a.jpg" then Return [xff; xd8; xff]
  else if String.eqb p "tex/broken.ozt" then Return too_small
  else Throw (Error "ENOENT: no such file or directory").

(** Collaborators whose codecs accept every input. *)
Definition demo_ext : Externals :=
  mkExternals
    (λ _, Return (buffer red_pixel))
    (λ _, Return (1, 1))
    (λ raw _ _, Return raw)
    (λ _, Return red_pixel)
    (λ _, "")
    demo_files
    posix_extname
    posix_basename
    posix_basename_suffix.

(** Collaborators whose JPEG codec rejects every input. *)
Definition rejecting_ext : Externals :=
  mkExternals
    (λ _, Throw (Error "Input buffer contains unsupported image format"))
    (λ _, Throw (Error "Input buffer contains unsupported image format"))
    (λ raw _ _, Return raw)
    (λ _, Return red_pixel)
    (λ _, "")
    demo_files
    posix_extname
    posix_basename
    posix_basename_suffix.

(** ** The loader: dispatch and failures *)

(** The outcome of [ozjToPng] as a function of the stream handed to the
    codec. *)
Definition ozj_outcome (ext : Externals) (stream : Buffer) : outcome Bitmap :=
  match sharp_toBuffer ext stream with
  | Throw e => Throw (Error ("Failed to decode JPEG: " +:+ exn_to_string e))
  | Return raw =>
      match sharp_metadata ext stream with
      | Throw e => Throw (Error ("Failed to decode JPEG: " +:+ exn_to_string e))
      | Return (wd, ht) => Return (mkBitmap raw wd ht)
      end
  end.

(** ** The OZT decoder: pixels *)

(** Four consecutive bytes of [data], the quad number [q]. *)
Definition quad_at (data : Buffer) (q : Z) : option (byte * byte * byte * byte) :=
  match at_index data (4 * q), at_index data (4 * q + 1),
        at_index data (4 * q + 2), at_index data (4 * q + 3) with
  | Some a, Some b, Some c, Some d => Some (a, b, c, d)
  | _, _, _, _ => None
  end.

(** The pixel (R, G, B, A) of a bitmap at column [x] of row [y], row 0
    being the first row of the buffer. *)
Definition pixel_at (bm : Bitmap) (x y : Z) : option (byte * byte * byte * byte) :=
  quad_at (buffer bm) (y * width bm + x).

(** The source quad (B, G, R, A) number [q] of an OZT buffer, counted from
    byte offset 22. *)
Definition source_quad (buf : Buffer) (q : Z) : option (byte * byte * byte * byte) :=
  quad_at (drop 22 buf) q.

(** ** Computations that leave the materials alone *)

Definition materials_kept {A} (m : M A) : Prop :=
  ∀ w, materials (m w).1 = materials w.

(** ** The binder: one file *)

(** The normalized base name and extension of a candidate file, as lines
    111 and 153-155 compute them. *)
Definition file_base (ext : Externals) (filePath : string) : string :=
  strip_ext (toLowerCase (path_basename ext filePath)).
Definition file_ext (ext : Externals) (filePath : string) : string :=
  slice1 (toLowerCase (path_extname ext filePath)).

(** The mesh [obj] accepts a file of base [fileBase] and extension
    [fileExt]: it carries a tag whose base name is [fileBase] and whose
    extension matches [fileExt]. *)
Definition accepts (fileBase fileExt : string) (obj : Object3D) : Prop :=
  ∃ p, tagged obj = Some p
       ∧ (normalizeWanted p).1 = fileBase
       ∧ extMatch (normalizeWanted p).2 fileExt = Return true.

(** What the material of an accepting mesh becomes. *)
Definition oz_flags (fileExt : string) (m : Material) : Material :=
  if String.eqb fileExt "ozt"
  then set_depthWrite false (set_blending NormalBlending (set_transparent true m))
  else set_depthWrite true (set_blending NoBlending (set_transparent false m)).

Definition bound_oz (fileExt : string) (tex : Texture) (m : Material) : Material :=
  set_needsUpdate (oz_flags fileExt (set_color 16777215 (set_map (Some tex) m))).

Definition bound_plain (tex : Texture) (m : Material) : Material :=
  set_needsUpdate (set_color 16777215 (set_map (Some tex) m)).

Definition is_oz (fileExt : string) : bool :=
  String.eqb fileExt "ozj" || String.eqb fileExt "ozt".

Definition bound_material (fileExt : string) (tex : Texture) : Material → Material :=
  if is_oz fileExt then bound_oz fileExt tex else bound_plain tex.

Definition apply_body (fileExt : string) (tex : Texture) : MeshEntry → bool → M bool :=
  if is_oz fileExt then apply_oz fileExt tex else apply_plain tex.

(** ** Loops that rebind materials *)

(** The shape shared by the three callbacks that bind a texture: an
    element that is not selected is skipped; for a selected one the
    material object [idof x] is read (a [TypeError] when there is none) and
    becomes [f] of what it was, nothing else in the store changes and the
    console is not written. *)
Definition binds_with {A S} (sel : A → bool) (idof : A → nat)
    (f : Material → Material) (hit : S → S) (body : A → S → M S) : Prop :=
  ∀ x s w,
    (sel x = false → body x s w = (w, Return s))
    ∧ (sel x = true → materials w !! idof x = None → ∃ e, body x s w = (w, Throw e))
    ∧ (sel x = true → ∀ mat, materials w !! idof x = Some mat →
         ∃ w', body x s w = (w', Return (hit s))
           ∧ materials w' !! idof x = Some (f mat)
           ∧ (∀ id, id ≠ idof x → materials w' !! id = materials w !! id)
           ∧ console w' = console w).

(** What a bound material looks like: the texture, a white tint, and for
    the two container extensions the flags of that extension. *)
Definition bound_like (fileExt : string) (tex : Texture) (mat : Material) : Prop :=
  map mat = Some tex ∧ color mat = 16777215
  ∧ (fileExt = "ozt" →
       transparent mat = true ∧ blending mat = NormalBlending ∧ depthWrite mat = false)
  ∧ (fileExt = "ozj" →
       transparent mat = false ∧ blending mat = NoBlending ∧ depthWrite mat = true).

(** ** The binder of [applyTextureToMeshes] *)

(** The base name [applyTextureToMeshes] compares with the texture name. *)
Definition wanted_base (ext : Externals) (p : string) : string :=
  toLowerCase (path_basename_suffix ext p (path_extname ext p)).

Definition selects (ext : Externals) (textureName : string) (obj : Object3D) : bool :=
  match tagged obj with
  | Some p => String.eqb (wanted_base ext p) textureName
  | None => false
  end.

Definition name_flags (ext : Externals) (texture : Texture) (m : Material) : Material :=
  if String.eqb (toLowerCase (path_extname ext (tex_name texture))) ".ozt"
  then set_depthWrite false (set_blending NormalBlending (set_transparent true m))
  else set_depthWrite true (set_blending NoBlending (set_transparent false m)).

Definition bound_by_name (ext : Externals) (texture : Texture) (m : Material) : Material :=
  set_needsUpdate (name_flags ext texture (set_color 16777215 (set_map (Some texture) m))).

(** ** The job *)


(** ** The equivalence of extensions *)

(** The equivalents of an extension in the table of section 4.4; an
    extension that the table does not list has none. *)
Definition equivalents (e : string) : list string :=
  default [] (assoc e equivExt_table).

(** The contract of section 4.4. *)
Definition matches (wanted candidate : string) : Prop :=
  wanted = candidate
  ∨ candidate ∈ equivalents wanted
  ∨ wanted ∈ equivalents candidate.

(** ** Concrete scenes *)

(** A fresh [MeshPhongMaterial]: no map, white, opaque, normal blending,
    depth write on. *)
Definition default_material : Material :=
  mkMaterial None 16777215 false NormalBlending true 0.

Definition mesh_of (p : string) (id : nat) : Object3D :=
  mkObject3D true (Some p) id [].

Definition group_of (meshes : list Object3D) : Object3D :=
  mkObject3D false None 0 meshes.

(** A world with fresh materials 0 .. n-1. *)
Definition world_of (n : nat) : World :=
  mkWorld [] [] (list_to_map (List.map (λ i, (i, default_material)) (seq 0 n))) [].

Definition wing_mesh : Object3D := mesh_of "wing.tga" 0.
Definition wing_group : Object3D := group_of [wing_mesh].

Definition a_mesh : Object3D := mesh_of "a.jpg" 0.
Definition a_group : Object3D := group_of [a_mesh].
Definition a_found : FoundTextures := [("a", ["tex/a.tga"; "tex/a.jpg"])].


Definition broken_mesh : Object3D := mesh_of "broken.ozt" 0.
Definition weapon_mesh : Object3D := mesh_of "Data/Item/Weapon01.OZJ" 1.
Definition weapon_group : Object3D := group_of [broken_mesh; weapon_mesh].
Definition weapon_found : FoundTextures :=
  [("broken", ["tex/broken.ozt"]); ("weapon01", ["tex/weapon01.jpg"])].


(** ** The loader: every run *)

(** A read stays inside a buffer of [size] bytes; a codec call is no read
    of the buffer. *)
Definition read_in_bounds (size : Z) (e : Event) : Prop :=
  match e with
  | Read off n => 0 ≤ off ∧ 0 < n ∧ off + n ≤ size
  | Codec _ _ => True
  end.

(** ** The equivalence of extensions: every pair *)

(** The extensions that occur in the table. *)
Definition table_extensions : list string :=
  ["jpg"; "jpeg"; "ozj"; "png"; "tga"; "ozt"].

(** ** A bind and the console *)

(** The computation writes nothing to the console when it returns. *)
Definition quiet {A} (m : M A) : Prop :=
  ∀ w w' a, m w = (w', Return a) → console w' = console w.

(** ** The job that completes *)

(** The outcome of the computation does not depend on the world. *)
Definition blind {A} (m : M A) : Prop := ∀ w w', (m w).2 = (m w').2.

(** ** [searchTextures] *)

(** An entry of [readdirSync(dir, { withFileTypes: true })]: a file, a
    directory together with what listing it gives ([None] when reading it
    throws), or anything else (a link, a socket). *)
#[warnings="-register-all"]
Inductive Dirent :=
  | FileEntry (name : string)
  | DirEntry (name : string) (listing : option (list Dirent))
  | OtherEntry (name : string).

Definition validExtensions : list string :=
  [".jpg"; ".jpeg"; ".png"; ".tga"; ".ozj"; ".ozt"].

(** [foundTextures[key]] for the object built by the search: its own
    entries, then what [Object.prototype] provides. *)
Definition found_get (found : gmap string (list string)) (key : string) : Lookup :=
  match found !! key with
  | Some l => OwnArray l
  | None => if mem_string key object_prototype_keys then Inherited else Undefined
  end.

(** Lines 92-95: [if (!foundTextures[name]) foundTextures[name] = [];
    foundTextures[name].push(fullPath)].  An inherited property is truthy
    and has no [push]. *)
Definition found_push (found : gmap string (list string)) (name fullPath : string)
    : outcome (gmap string (list string)) :=
  let found :=
    match found_get found name with
    | Undefined => <[name := []]> found
    | _ => found
    end in
  match found_get found name with
  | OwnArray l => Return (<[name := l ++ [fullPath]]> found)
  | _ => Throw (TypeError "foundTextures[nameWithoutExt].push is not a function")
  end.

(** The body of the loop of [searchDir] for one entry of the directory
    [dirPath] read at depth [depth]; a directory entry is searched by the
    recursive call, which catches what is thrown inside it. *)
Fixpoint search_entry (ext : Externals) (join : string → string → string)
    (requiredNames : list string) (depth : nat) (dirPath : string)
    (entry : Dirent) (found : gmap string (list string))
    : outcome (gmap string (list string)) :=
  match entry with
  | DirEntry name listing =>
      let fullPath := join dirPath name in
      Return
        (if (3 <? depth + 1)%nat then found
         else
           match listing with
           | None => found
           | Some entries =>
               (fix loop (es : list Dirent) (found : gmap string (list string)) :=
                  match es with
                  | [] => found
                  | e :: es' =>
                      match search_entry ext join requiredNames (depth + 1) fullPath e found with
                      | Return found' => loop es' found'
                      | Throw _ => found
                      end
                  end) entries found
           end)
  | FileEntry name =>
      let fullPath := join dirPath name in
      let lowerName := toLowerCase name in
      let ext_ := path_extname ext lowerName in
      if mem_string ext_ validExtensions then
        let nameWithoutExt := path_basename_suffix ext lowerName ext_ in
        if mem_string nameWithoutExt requiredNames
        then found_push found nameWithoutExt fullPath
        else Return found
      else Return found
  | OtherEntry _ => Return found
  end.

(** The [for] loop of [searchDir] inside its [try]: the first exception
    ends it, and what was found so far stays. *)
Fixpoint search_loop (ext : Externals) (join : string → string → string)
    (requiredNames : list string) (depth : nat) (dirPath : string)
    (entries : list Dirent) (found : gmap string (list string))
    : gmap string (list string) :=
  match entries with
  | [] => found
  | e :: es' =>
      match search_entry ext join requiredNames depth dirPath e found with
      | Return found' => search_loop ext join requiredNames depth dirPath es' found'
      | Throw _ => found
      end
  end.

(** [searchDir(dirPath, depth)], [listing] being what [readdirSync]
    gives for [dirPath]. *)
Definition searchDir (ext : Externals) (join : string → string → string)
    (requiredNames : list string) (depth : nat) (dirPath : string)
    (listing : option (list Dirent)) (found : gmap string (list string))
    : gmap string (list string) :=
  if (3 <? depth)%nat then found
  else
    match listing with
    | None => found
    | Some entries => search_loop ext join requiredNames depth dirPath entries found
    end.

(** [searchTextures(startPath, requiredTextures)] of [bmd-to-glb.ts], and
    what the handler 'fs:searchTextures' of [electron/main.js] returns: the
    handler is the same code with asynchronous calls, followed by a summary
    written with [console.log], which is not part of the model. *)
Definition searchTextures (ext : Externals) (join : string → string → string)
    (startPath : string) (listing : option (list Dirent))
    (requiredTextures : list string) : gmap string (list string) :=
  let requiredNames := List.map (wanted_base ext) requiredTextures in
  searchDir ext join requiredNames 0 startPath listing ∅.

(** The files a search with depth limit [limit] looks at, as (directory
    path, name), in the order it meets them: the directories more than
    [limit] levels down and the unreadable ones contribute nothing. *)
Fixpoint visible_entry (limit : nat) (join : string → string → string) (depth : nat)
    (dirPath : string) (entry : Dirent) : list (string * string) :=
  match entry with
  | FileEntry name => [(dirPath, name)]
  | DirEntry name listing =>
      if (limit <? depth + 1)%nat then []
      else
        match listing with
        | None => []
        | Some entries =>
            (fix over (es : list Dirent) : list (string * string) :=
               match es with
               | [] => []
               | e :: es' =>
                   visible_entry limit join (depth + 1) (join dirPath name) e ++ over es'
               end) entries
        end
  | OtherEntry _ => []
  end.

Definition visible_files (limit : nat) (join : string → string → string) (depth : nat)
    (dirPath : string) (listing : option (list Dirent)) : list (string * string) :=
  if (limit <? depth)%nat then []
  else
    match listing with
    | None => []
    | Some entries => flat_map (visible_entry limit join depth dirPath) entries
    end.

(** The key under which the search files a name: its base, when the
    extension is one of the six and the base is required. *)
Definition wanted_key (ext : Externals) (requiredNames : list string)
    (name : string) : option string :=
  let lowerName := toLowerCase name in
  let ext_ := path_extname ext lowerName in
  if mem_string ext_ validExtensions then
    let nameWithoutExt := path_basename_suffix ext lowerName ext_ in
    if mem_string nameWithoutExt requiredNames then Some nameWithoutExt else None
  else None.

(** The paths of the files of [files] filed under [key], in order. *)
Definition paths_for (ext : Externals) (join : string → string → string)
    (requiredNames : list string) (key : string)
    (files : list (string * string)) : list string :=
  List.map (λ f, join f.1 f.2)
    (List.filter (λ f, bool_decide (wanted_key ext requiredNames f.2 = Some key)) files).


(** Every entry of [found] is filed under a required name that is no
    property of [Object.prototype], and holds at least one path, each the
    path of a file of [files] that belongs under that name. *)
Definition found_ok (ext : Externals) (join : string → string → string)
    (requiredNames : list string) (files : list (string * string))
    (found : gmap string (list string)) : Prop :=
  ∀ k l, found !! k = Some l →
    k ∈ requiredNames ∧ (k ∉ object_prototype_keys) ∧ l ≠ []
    ∧ ∀ p, p ∈ l → p ∈ paths_for ext join requiredNames k files.

(** A small tree: two files for "wing", one of them a level down, an
    unreadable directory and a link. *)
Definition demo_tree : list Dirent :=
  [ FileEntry "Wing.OZT";
    DirEntry "sub" (Some [FileEntry "wing.tga"; FileEntry "other.jpg"]);
    DirEntry "locked" None;
    OtherEntry "link" ].

(** [path.join] on two plain segments. *)
Definition demo_join (d n : string) : string := d +:+ "/" +:+ n.

(** ** The depth cut *)

(** [entry] with the directories more than [levels] levels below it made
    unreadable. *)
Fixpoint prune (levels : nat) (entry : Dirent) {struct entry} : Dirent :=
  match entry with
  | DirEntry name listing =>
      DirEntry name
        match levels, listing with
        | S n, Some entries => Some (List.map (prune n) entries)
        | _, _ => None
        end
  | _ => entry
  end.

Definition prune_listing (levels : nat) (listing : option (list Dirent))
    : option (list Dirent) :=
  option_map (List.map (prune levels)) listing.

(** A tree with a file four levels down, and the same tree with another
    file there. *)
Definition deep_tree (name : string) : list Dirent :=
  [ FileEntry "wing.tga";
    DirEntry "a" (Some [DirEntry "b" (Some [DirEntry "c" (Some
      [FileEntry "wing.png"; DirEntry "d" (Some [FileEntry name])])])]) ].

(** ** The handler 'fs:findBmdFiles' of [electron/main.js] *)

(** [s.endsWith(suffix)]. *)
Definition endsWith (s suffix : string) : bool :=
  let n := String.length s in
  let m := String.length suffix in
  (m <=? n)%nat && String.eqb (substring (n - m) m s) suffix.

(** The body of the loop of its [searchDir] for one entry of the directory
    [dirPath] read at depth [depth]. *)
Fixpoint findBmdFiles_entry (join : string → string → string) (depth : nat)
    (dirPath : string) (entry : Dirent) (bmdFiles : list string) : list string :=
  match entry with
  | DirEntry name listing =>
      let fullPath := join dirPath name in
      if (5 <? depth + 1)%nat then bmdFiles
      else
        match listing with
        | None => bmdFiles
        | Some entries =>
            (fix loop (es : list Dirent) (bmdFiles : list string) :=
               match es with
               | [] => bmdFiles
               | e :: es' =>
                   loop es' (findBmdFiles_entry join (depth + 1) fullPath e bmdFiles)
               end) entries bmdFiles
        end
  | FileEntry name =>
      let fullPath := join dirPath name in
      let lowerName := toLowerCase name in
      if endsWith lowerName ".bmd" then bmdFiles ++ [fullPath] else bmdFiles
  | OtherEntry _ => bmdFiles
  end.

(** [searchDir(dirPath, depth)] of the handler, [listing] being what
    [fs.readdir] gives for [dirPath] ([None] when it rejects, which the
    [catch] swallows). *)
Definition findBmdFiles_searchDir (join : string → string → string) (depth : nat)
    (dirPath : string) (listing : option (list Dirent)) (bmdFiles : list string)
    : list string :=
  if (5 <? depth)%nat then bmdFiles
  else
    match listing with
    | None => bmdFiles
    | Some entries =>
        foldl (λ bmdFiles e, findBmdFiles_entry join depth dirPath e bmdFiles)
          bmdFiles entries
    end.

(** What the handler returns; the summary it writes with [console.log] is
    not part of the model. *)
Definition fs_findBmdFiles (join : string → string → string) (startPath : string)
    (listing : option (list Dirent)) : list string :=
  findBmdFiles_searchDir join 0 startPath listing [].

(** The paths of the files of [files] whose name ends in .bmd, whatever
    the case. *)
Definition bmd_paths (join : string → string → string)
    (files : list (string * string)) : list string :=
  List.map (λ f, join f.1 f.2)
    (List.filter (λ f, endsWith (toLowerCase f.2) ".bmd") files).

(** ** [findBmdFiles] of [bmd-to-glb.ts] *)

(** What [statSync] and [readdirSync] say of an item: not a directory, a
    directory with what reading it gives or throws, or an item whose
    [statSync] throws (a dangling link). *)
#[warnings="-register-all"]
Inductive StatEntry :=
  | StatFile (name : string)
  | StatDir (name : string) (listing : exn + list StatEntry)
  | StatThrows (name : string) (e : exn).

(** The body of the loop of [traverse(current)] for one item. *)
Fixpoint findBmdFiles_item (ext : Externals) (join : string → string → string)
    (current : string) (item : StatEntry) (files : list string)
    : outcome (list string) :=
  match item with
  | StatThrows _ e => Throw e
  | StatDir name listing =>
      let full := join current name in
      match listing with
      | inl e => Throw e
      | inr items =>
          (fix loop (its : list StatEntry) (files : list string) :=
             match its with
             | [] => Return files
             | i :: its' =>
                 match findBmdFiles_item ext join full i files with
                 | Return files' => loop its' files'
                 | Throw e => Throw e
                 end
             end) items files
      end
  | StatFile name =>
      let full := join current name in
      if String.eqb (toLowerCase (path_extname ext name)) ".bmd"
      then Return (files ++ [full])
      else Return files
  end.

(** [traverse(current)], [listing] being what [readdirSync(current)] gives
    or throws. *)
Definition findBmdFiles_traverse (ext : Externals) (join : string → string → string)
    (current : string) (listing : exn + list StatEntry) (files : list string)
    : outcome (list string) :=
  match listing with
  | inl e => Throw e
  | inr items =>
      foldl (λ r i,
               match r with
               | Return files => findBmdFiles_item ext join current i files
               | Throw e => Throw e
               end) (Return files) items
  end.

Definition findBmdFiles (ext : Externals) (join : string → string → string)
    (dir : string) (listing : exn + list StatEntry) : outcome (list string) :=
  findBmdFiles_traverse ext join dir listing [].

(** The exceptions the file system holds for a traversal, in the order it
    would meet them. *)
Fixpoint stat_errors (item : StatEntry) : list exn :=
  match item with
  | StatFile _ => []
  | StatDir _ (inl e) => [e]
  | StatDir _ (inr items) => flat_map stat_errors items
  | StatThrows _ e => [e]
  end.

Definition listing_errors (listing : exn + list StatEntry) : list exn :=
  match listing with
  | inl e => [e]
  | inr items => flat_map stat_errors items
  end.

(** The items that are not directories, as (directory path, name), in the
    order of a traversal, at any depth. *)
Fixpoint stat_files (join : string → string → string) (current : string)
    (item : StatEntry) : list (string * string) :=
  match item with
  | StatFile name => [(current, name)]
  | StatDir name (inr items) => flat_map (stat_files join (join current name)) items
  | _ => []
  end.

Definition listing_files (join : string → string → string) (current : string)
    (listing : exn + list StatEntry) : list (string * string) :=
  match listing with
  | inl _ => []
  | inr items => flat_map (stat_files join current) items
  end.

(** The paths of the files of [files] whose extension is .bmd, whatever
    the case. *)
Definition bmd_by_extname (ext : Externals) (join : string → string → string)
    (files : list (string * string)) : list string :=
  List.map (λ f, join f.1 f.2)
    (List.filter (λ f, String.eqb (toLowerCase (path_extname ext f.2)) ".bmd") files).

(** ** The double decode of [loadAndApplyTexture] *)

(** The computation only logs, and the same way from every world. *)
Definition logs_only {A} (m : M A) : Prop :=
  ∃ evs lines r, ∀ w,
    m w = (mkWorld (events w ++ evs) (console w ++ lines) (materials w) (disposed w), r).

(** The decoder [loadAndApplyTexture] picks for the lower-cased extension
    [ext_] of a TGA or OZ file. *)
Definition decode_file (ext : Externals) (ext_ : string) (buf : Buffer) : M Bitmap :=
  if String.eqb ext_ ".tga" then convertTgaToBuffer ext buf
  else convertOzjToBuffer ext buf.

(** * Properties *)

(** ** Runs of the monad *)

Lemma add_events_nil w : add_events w [] = w.
Proof. destruct w; unfold add_events; simpl. by rewrite app_nil_r. Qed.

Lemma add_events_app w a b :
  add_events (add_events w a) b = add_events w (a ++ b).
Proof. unfold add_events; simpl. by rewrite app_assoc. Qed.

Lemma bind_Return {A B} (m : M A) (k : A → M B) w w' a :
  m w = (w', Return a) → bind m k w = k a w'.
Proof. intros H. unfold bind. by rewrite H. Qed.

Lemma bind_Throw {A B} (m : M A) (k : A → M B) w w' e :
  m w = (w', Throw e) → bind m k w = (w', Throw e).
Proof. intros H. unfold bind. by rewrite H. Qed.

Lemma u8_get_run buf i w :
  u8_get buf i w = (add_events w [Read i 1], Return (at_index buf i)).
Proof. reflexivity. Qed.

(** ** Bytes *)

Lemma byteZ_range b : 0 ≤ byteZ b < 256.
Proof.
  unfold byteZ. pose proof (Byte.to_N_bounded b). lia.
Qed.

Lemma byteZ_inj a b : byteZ a = byteZ b → a = b.
Proof.
  unfold byteZ. intros H. apply N2Z.inj in H.
  pose proof (Byte.of_to_N a) as Ha. pose proof (Byte.of_to_N b) as Hb.
  rewrite H in Ha. congruence.
Qed.

Lemma strict_eq_Some v n b :
  byteZ b = n → (strict_eq v n = true ↔ v = Some b).
Proof.
  intros <-. destruct v as [c|]; simpl.
  - rewrite Z.eqb_eq. split; [intros H; f_equal; by apply byteZ_inj | by intros [= ->]].
  - split; discriminate.
Qed.

Lemma at_index_Some buf i b :
  at_index buf i = Some b → 0 ≤ i < size_of buf.
Proof.
  unfold at_index, size_of. destruct (Z.ltb_spec i 0); [discriminate|].
  intros Hl%lookup_lt_Some. lia.
Qed.

Lemma at_index_lt buf i :
  0 ≤ i < size_of buf → ∃ b, at_index buf i = Some b.
Proof.
  unfold at_index, size_of. intros [H0 H1].
  destruct (Z.ltb_spec i 0); [lia|].
  destruct (lookup_lt_is_Some_2 buf (Z.to_nat i)) as [b Hb]; [lia|]. eauto.
Qed.

(** ** The marker scan *)

Lemma first_hit_cons buf i idx :
  first_hit buf (i :: idx) = if marker_here buf i then i else first_hit buf idx.
Proof. unfold first_hit. simpl. by destruct (marker_here buf i). Qed.

Lemma scan_marker_run buf idx w :
  (∀ i, i ∈ idx → 0 ≤ i ∧ i + 2 < size_of buf) →
  ∃ evs, scan_marker buf idx w = (add_events w evs, Return (first_hit buf idx))
         ∧ Forall (in_bounds (size_of buf)) evs.
Proof.
  revert w. induction idx as [|i idx IH]; intros w Hidx.
  - exists []. rewrite add_events_nil. split; [reflexivity | constructor].
  - assert (Hi : 0 ≤ i ∧ i + 2 < size_of buf) by (apply Hidx; left).
    assert (Hrest : ∀ j, j ∈ idx → 0 ≤ j ∧ j + 2 < size_of buf)
      by (intros j Hj; apply Hidx; by right).
    assert (Hb : ∀ d, 0 ≤ d ≤ 2 → in_bounds (size_of buf) (Read (i + d) 1))
      by (intros d Hd; simpl; lia).
    pose proof (Hb 0 ltac:(lia)) as Hb0. rewrite Z.add_0_r in Hb0.
    rewrite first_hit_cons. unfold marker_here.
    simpl scan_marker. unfold bind at 1. rewrite u8_get_run.
    destruct (strict_eq (at_index buf i) 255) eqn:E0; simpl andb.
    + unfold bind at 1. unfold bind at 1. rewrite u8_get_run.
      destruct (strict_eq (at_index buf (i + 1)) 216) eqn:E1; simpl andb.
      * unfold bind at 1. rewrite u8_get_run. unfold ret at 1.
        destruct (strict_eq (at_index buf (i + 2)) 255) eqn:E2.
        -- exists [Read i 1; Read (i + 1) 1; Read (i + 2) 1].
           rewrite !add_events_app. simpl. split; [reflexivity|].
           repeat constructor; first [apply Hb0 | apply Hb]; lia.
        -- destruct (IH (add_events (add_events (add_events w [Read i 1])
                       [Read (i + 1) 1]) [Read (i + 2) 1]) Hrest) as (evs & Hrun & Hevs).
           exists ([Read i 1; Read (i + 1) 1; Read (i + 2) 1] ++ evs).
           rewrite Hrun, !add_events_app. split; [reflexivity|].
           apply Forall_app; split; [|done].
           repeat constructor; first [apply Hb0 | apply Hb]; lia.
      * unfold ret at 1.
        destruct (IH (add_events (add_events w [Read i 1]) [Read (i + 1) 1]) Hrest)
          as (evs & Hrun & Hevs).
        exists ([Read i 1; Read (i + 1) 1] ++ evs).
        rewrite Hrun, !add_events_app. split; [reflexivity|].
        apply Forall_app; split; [|done].
        repeat constructor; first [apply Hb0 | apply Hb]; lia.
    + unfold bind at 1. unfold ret at 1.
      destruct (IH (add_events w [Read i 1]) Hrest) as (evs & Hrun & Hevs).
      exists ([Read i 1] ++ evs).
      rewrite Hrun, !add_events_app. split; [reflexivity|].
      apply Forall_app; split; [|done].
      repeat constructor; apply Hb0.
Qed.

(** ** The dispatch of [convertOzjToBuffer] *)

Lemma scan_window_bounds buf i :
  i ∈ scan_window buf → 20 ≤ i ≤ 29 ∧ i + 2 < size_of buf.
Proof. unfold scan_window. rewrite elem_of_seqZ. lia. Qed.

Lemma scan_window_small buf : size_of buf < 23 → scan_window buf = [].
Proof. intros H. unfold scan_window. apply seqZ_nil. lia. Qed.

Lemma view_getInt16_run buf off w :
  0 ≤ off → off + 2 ≤ size_of buf →
  view_getInt16 buf off w = (add_events w [Read off 2], Return (int16_at buf off)).
Proof.
  intros H0 H1.
  destruct (at_index_lt buf off) as [lo Hlo]; [lia|].
  destruct (at_index_lt buf (off + 1)) as [hi Hhi]; [lia|].
  unfold view_getInt16, int16_at, byte_at, bind, emit, ret.
  by rewrite Hlo, Hhi.
Qed.

Lemma view_getUint8_run buf off w :
  0 ≤ off < size_of buf →
  view_getUint8 buf off w = (add_events w [Read off 1], Return (byteZ (byte_at buf off))).
Proof.
  intros H. destruct (at_index_lt buf off) as [b Hb]; [lia|].
  unfold view_getUint8, byte_at, bind, emit, ret. by rewrite Hb.
Qed.

Lemma sniff_run buf w :
  ∃ evs, sniff buf w = (add_events w evs, sniff_outcome buf)
         ∧ Forall (in_bounds (size_of buf)) evs
         ∧ (size_of buf < 22 → evs = []).
Proof.
  unfold sniff, sniff_outcome. fold (scan_window buf).
  destruct (scan_marker_run buf (scan_window buf) w) as (evs & Hrun & Hevs).
  { intros i Hi%scan_window_bounds. lia. }
  assert (Hsmall : size_of buf < 22 → evs = []).
  { intros Hlt. rewrite scan_window_small in Hrun by lia.
    simpl in Hrun. unfold ret in Hrun.
    assert (He : events w = events (add_events w evs)) by congruence.
    simpl in He. destruct evs; [done|].
    apply (f_equal length) in He. rewrite length_app in He. simpl in He. lia. }
  rewrite (bind_Return _ _ _ _ _ Hrun).
  destruct (negb (first_hit buf (scan_window buf) =? -1)).
  { exists evs. auto. }
  destruct (Z.ltb_spec (size_of buf) 22) as [Hlt|Hge].
  { exists evs. auto. }
  rewrite (bind_Return _ _ _ _ _ (view_getInt16_run buf 16 _ ltac:(lia) ltac:(lia))).
  rewrite (bind_Return _ _ _ _ _ (view_getInt16_run buf 18 _ ltac:(lia) ltac:(lia))).
  rewrite (bind_Return _ _ _ _ _ (view_getUint8_run buf 20 _ ltac:(lia))).
  rewrite !add_events_app. fold (looksLikeOzt buf).
  exists (evs ++ [Read 16 2] ++ [Read 18 2] ++ [Read 20 1]).
  split; [by destruct (looksLikeOzt buf)|]. split; [|lia].
  apply Forall_app; split; [done|].
  repeat constructor; lia.
Qed.

(** ** The conditions of the specification and those of the code *)

Lemma marker_here_iff buf k : marker_here buf k = true ↔ marker_at buf k.
Proof.
  unfold marker_here, marker_at. rewrite !andb_true_iff.
  rewrite !(strict_eq_Some _ 255 xff), (strict_eq_Some _ 216 xd8) by reflexivity.
  tauto.
Qed.

Lemma first_hit_none buf idx :
  (∀ i, i ∈ idx → ¬ marker_at buf i) → first_hit buf idx = -1.
Proof.
  induction idx as [|i idx IH]; intros H; [reflexivity|].
  rewrite first_hit_cons.
  destruct (marker_here buf i) eqn:E.
  - exfalso. apply (H i); [left | by apply marker_here_iff].
  - apply IH. intros j Hj. apply H. by right.
Qed.

Lemma first_hit_seqZ buf a n k :
  a ≤ k < a + n → marker_at buf k → (∀ j, a ≤ j < k → ¬ marker_at buf j) →
  first_hit buf (seqZ a n) = k.
Proof.
  intros Hk Hm Hfirst.
  assert (Hn : n = Z.of_nat (Z.to_nat n)) by lia.
  revert Hk Hfirst. rewrite Hn. clear Hn. generalize (Z.to_nat n) as m. clear n.
  intros m. revert a. induction m as [|m IH]; intros a Hk Hfirst; [lia|].
  rewrite seqZ_cons by lia. rewrite first_hit_cons.
  destruct (marker_here buf a) eqn:E.
  - apply marker_here_iff in E.
    destruct (Z.eq_dec a k) as [->|Hne]; [done|].
    exfalso. apply (Hfirst a); [lia | done].
  - assert (a ≠ k) by (intros ->; apply marker_here_iff in Hm; congruence).
    replace (Z.pred (Z.of_nat (S m))) with (Z.of_nat m) by lia.
    apply IH; [lia|]. intros j Hj. apply Hfirst. lia.
Qed.

Lemma first_hit_window_none buf :
  no_marker buf → first_hit buf (scan_window buf) = -1.
Proof.
  intros H. apply first_hit_none. intros i Hi%scan_window_bounds. apply H. lia.
Qed.

Lemma first_hit_window_some buf k :
  20 ≤ k ≤ 29 → marker_at buf k → (∀ j, 20 ≤ j < k → ¬ marker_at buf j) →
  first_hit buf (scan_window buf) = k.
Proof.
  intros Hk Hm Hfirst. unfold scan_window.
  apply first_hit_seqZ; [|done|done].
  destruct Hm as (_ & _ & H2%at_index_Some). lia.
Qed.

Lemma int16_at_unsigned buf off :
  0 < int16_at buf off → int16_at buf off = u16le_at buf off.
Proof.
  unfold int16_at, u16le_at.
  pose proof (byteZ_range (byte_at buf off)).
  pose proof (byteZ_range (byte_at buf (off + 1))).
  destruct (Z.ltb_spec (byteZ (byte_at buf off) + 256 * byteZ (byte_at buf (off + 1))) 32768); lia.
Qed.

Lemma int16_at_small buf off :
  0 < u16le_at buf off ≤ 1024 → int16_at buf off = u16le_at buf off.
Proof.
  unfold int16_at, u16le_at. intros H.
  destruct (Z.ltb_spec (byteZ (byte_at buf off) + 256 * byteZ (byte_at buf (off + 1))) 32768); lia.
Qed.

Lemma looksLikeOzt_iff buf :
  looksLikeOzt buf = true ↔ ozt_valid buf (int16_at buf 16) (int16_at buf 18).
Proof.
  unfold looksLikeOzt, ozt_valid.
  rewrite !andb_true_iff, !Z.ltb_lt, !Z.leb_le, Z.eqb_eq.
  split.
  - intros (((((H1 & H2) & H3) & H4) & H5) & H6).
    rewrite <- !int16_at_unsigned by done. tauto.
  - tauto.
Qed.

Lemma ozt_valid_int16 buf wd ht :
  ozt_valid buf wd ht → wd = int16_at buf 16 ∧ ht = int16_at buf 18.
Proof.
  intros (-> & -> & H). rewrite !int16_at_small by lia. done.
Qed.

Lemma looksLikeOzt_false buf :
  looksLikeOzt buf = false ↔ ¬ ∃ wd ht, ozt_valid buf wd ht.
Proof.
  split.
  - intros Hf (wd & ht & Hv).
    destruct (ozt_valid_int16 _ _ _ Hv) as [-> ->].
    apply looksLikeOzt_iff in Hv. congruence.
  - intros Hn. destruct (looksLikeOzt buf) eqn:E; [|done].
    exfalso. apply Hn. apply looksLikeOzt_iff in E. eauto.
Qed.

(** The outcome of the dispatch, case by case. *)
Lemma sniff_outcome_marker buf k :
  20 ≤ k ≤ 29 → marker_at buf k → (∀ j, 20 ≤ j < k → ¬ marker_at buf j) →
  sniff_outcome buf = Return (OZJ k).
Proof.
  intros Hk Hm Hfirst. unfold sniff_outcome.
  rewrite (first_hit_window_some buf k) by done.
  destruct (Z.eqb_spec k (-1)); [lia | done].
Qed.

Lemma sniff_outcome_small buf :
  size_of buf < 22 → sniff_outcome buf = Throw (Error "File too small for OZT").
Proof.
  intros H. unfold sniff_outcome.
  rewrite scan_window_small by lia. simpl.
  destruct (Z.ltb_spec (size_of buf) 22); [done | lia].
Qed.

Lemma sniff_outcome_no_marker buf :
  no_marker buf → 22 ≤ size_of buf →
  sniff_outcome buf =
    if looksLikeOzt buf then Return (OZT (int16_at buf 16) (int16_at buf 18))
    else Throw (Error "Unsupported OZ? file").
Proof.
  intros Hn Hs. unfold sniff_outcome.
  rewrite first_hit_window_none by done. simpl.
  destruct (Z.ltb_spec (size_of buf) 22); [lia | done].
Qed.

Lemma sniff_result buf w : (sniff buf w).2 = sniff_outcome buf.
Proof. destruct (sniff_run buf w) as (evs & -> & _). reflexivity. Qed.

(** ** The OZT decoder *)

Lemma length_u8_set arr i v : length (u8_set arr i v) = length arr.
Proof. unfold u8_set. destruct (i <? 0); [done | apply length_insert]. Qed.

Lemma at_index_u8_set arr i v j :
  0 ≤ i < size_of arr →
  at_index (u8_set arr i v) j =
    if decide (i = j) then Some (default x00 v) else at_index arr j.
Proof.
  unfold size_of, u8_set, at_index. intros Hi.
  destruct (Z.ltb_spec i 0); [lia|].
  case_decide as Hij.
  - subst j. destruct (Z.ltb_spec i 0); [lia|].
    apply list_lookup_insert_eq. lia.
  - destruct (Z.ltb_spec j 0); [done|].
    apply list_lookup_insert_ne. lia.
Qed.

Lemma ozt_pixel_run src len D x p s w :
  decoded_upto src len p s → D + x * 4 = 4 * p → 0 ≤ p →
  4 * p + 4 ≤ Z.of_nat len → 22 + 4 * p + 4 ≤ size_of src →
  ∃ evs s', ozt_pixel src D x s w = (add_events w evs, Return s')
            ∧ decoded_upto src len (p + 1) s'
            ∧ Forall (in_bounds (size_of src)) evs.
Proof.
  destruct s as [offset rgba]. intros (Hoff & Hlen & Hpix) HD Hp Hroom Hsrc.
  simpl in Hoff, Hlen, Hpix. subst offset.
  unfold ozt_pixel. rewrite HD.
  set (r := at_index src (22 + 4 * p + 2)).
  set (g := at_index src (22 + 4 * p + 1)).
  set (b := at_index src (22 + 4 * p)).
  set (a := at_index src (22 + 4 * p + 3)).
  rewrite !(bind_Return _ _ _ _ _ (u8_get_run _ _ _)).
  unfold ret. rewrite !add_events_app. simpl app. fold r g b a.
  exists [Read (22 + 4 * p) 1; Read (22 + 4 * p + 1) 1;
          Read (22 + 4 * p + 2) 1; Read (22 + 4 * p + 3) 1].
  eexists. split; [reflexivity|]. split.
  - split; [simpl; lia|]. split; [simpl; by rewrite !length_u8_set|].
    intros q c Hq Hc. simpl.
    rewrite !at_index_u8_set
      by (unfold size_of; rewrite ?length_u8_set; lia).
    assert (Hcases : c = 0 ∨ c = 1 ∨ c = 2 ∨ c = 3) by lia.
    destruct (Z.eq_dec q p) as [->|Hne].
    + destruct Hcases as [-> | [-> | [-> | ->]]];
        repeat (case_decide; try lia); unfold byte_at; subst r g b a;
        [ change (bgra_source 0) with 2 | change (bgra_source 1) with 1
        | change (bgra_source 2) with 0 | change (bgra_source 3) with 3 ];
        do 3 f_equal; lia.
    + repeat (case_decide; try lia). apply Hpix; lia.
  - repeat constructor; lia.
Qed.

Lemma ozt_columns_run src len D n : ∀ x0 p s w,
  decoded_upto src len p s → D + x0 * 4 = 4 * p → 0 ≤ p →
  4 * (p + Z.of_nat n) ≤ Z.of_nat len → 22 + 4 * (p + Z.of_nat n) ≤ size_of src →
  ∃ evs s', for_each (seqZ x0 (Z.of_nat n)) (ozt_pixel src D) s w
              = (add_events w evs, Return s')
            ∧ decoded_upto src len (p + Z.of_nat n) s'
            ∧ Forall (in_bounds (size_of src)) evs.
Proof.
  induction n as [|n IH]; intros x0 p s w Hinv HD Hp Hroom Hsrc.
  - exists [], s. rewrite seqZ_nil by lia. simpl for_each. unfold ret.
    rewrite add_events_nil, Z.add_0_r. split; [done|]. split; [done|]. constructor.
  - rewrite seqZ_cons by lia. simpl for_each.
    destruct (ozt_pixel_run src len D x0 p s w Hinv HD Hp) as (e1 & s1 & Hrun1 & Hinv1 & Hev1);
      [lia | lia |].
    rewrite (bind_Return _ _ _ _ _ Hrun1).
    replace (Z.pred (Z.of_nat (S n))) with (Z.of_nat n) by lia.
    destruct (IH (Z.succ x0) (p + 1) s1 (add_events w e1) Hinv1) as (e2 & s2 & Hrun2 & Hinv2 & Hev2);
      [lia | lia | lia | lia |].
    exists (e1 ++ e2), s2. rewrite Hrun2, add_events_app.
    replace (p + Z.of_nat (S n)) with (p + 1 + Z.of_nat n) by lia.
    split; [done|]. split; [done|]. by apply Forall_app.
Qed.

Lemma ozt_row_run src len nx y s w :
  0 ≤ nx → 0 ≤ y → decoded_upto src len (y * nx) s →
  4 * ((y + 1) * nx) ≤ Z.of_nat len → 22 + 4 * ((y + 1) * nx) ≤ size_of src →
  ∃ evs s', ozt_row src nx y s w = (add_events w evs, Return s')
            ∧ decoded_upto src len ((y + 1) * nx) s'
            ∧ Forall (in_bounds (size_of src)) evs.
Proof.
  intros Hnx Hy Hinv Hroom Hsrc. unfold ozt_row.
  destruct (ozt_columns_run src len (y * nx * 4) (Z.to_nat nx) 0 (y * nx) s w Hinv)
    as (evs & s' & Hrun & Hinv' & Hevs); [lia | nia | lia | lia |].
  rewrite Z2Nat.id in Hrun, Hinv' by lia.
  replace (y * nx + nx) with ((y + 1) * nx) in Hinv' by lia.
  eauto.
Qed.

Lemma ozt_rows_run src len nx m : ∀ y0 s w,
  0 ≤ nx → 0 ≤ y0 → decoded_upto src len (y0 * nx) s →
  4 * ((y0 + Z.of_nat m) * nx) ≤ Z.of_nat len →
  22 + 4 * ((y0 + Z.of_nat m) * nx) ≤ size_of src →
  ∃ evs s', for_each (seqZ y0 (Z.of_nat m)) (ozt_row src nx) s w
              = (add_events w evs, Return s')
            ∧ decoded_upto src len ((y0 + Z.of_nat m) * nx) s'
            ∧ Forall (in_bounds (size_of src)) evs.
Proof.
  induction m as [|m IH]; intros y0 s w Hnx Hy Hinv Hroom Hsrc.
  - exists [], s. rewrite seqZ_nil by lia. simpl for_each. unfold ret.
    rewrite add_events_nil, Z.add_0_r. split; [done|]. split; [done|]. constructor.
  - rewrite seqZ_cons by lia. simpl for_each.
    destruct (ozt_row_run src len nx y0 s w Hnx Hy Hinv) as (e1 & s1 & Hrun1 & Hinv1 & Hev1);
      [nia | nia |].
    rewrite (bind_Return _ _ _ _ _ Hrun1).
    replace (Z.pred (Z.of_nat (S m))) with (Z.of_nat m) by lia.
    destruct (IH (Z.succ y0) s1 (add_events w e1) Hnx) as (e2 & s2 & Hrun2 & Hinv2 & Hev2);
      [lia | by replace (Z.succ y0) with (y0 + 1) by lia | | |].
    + replace (Z.succ y0 + Z.of_nat m) with (y0 + Z.of_nat (S m)) by lia. done.
    + replace (Z.succ y0 + Z.of_nat m) with (y0 + Z.of_nat (S m)) by lia. done.
    + exists (e1 ++ e2), s2. rewrite Hrun2, add_events_app.
      replace (y0 + Z.of_nat (S m)) with (Z.succ y0 + Z.of_nat m) by lia.
      split; [done|]. split; [done|]. by apply Forall_app.
Qed.

(** [oztToPng] on dimensions that fit the buffer. *)
Lemma oztToPng_run buf nx ny w :
  0 < nx → 0 < ny → 22 + nx * ny * 4 ≤ size_of buf →
  ∃ evs rgba, oztToPng buf nx ny w = (add_events w evs, Return (mkBitmap rgba nx ny))
    ∧ Forall (in_bounds (size_of buf)) evs
    ∧ size_of rgba = nx * ny * 4
    ∧ ∀ q c, 0 ≤ q < nx * ny → 0 ≤ c < 4 →
        at_index rgba (4 * q + c) = Some (byte_at buf (22 + 4 * q + bgra_source c)).
Proof.
  intros Hnx Hny Hsize. unfold oztToPng.
  destruct (Z.ltb_spec (nx * ny * 4) 0) as [Hneg|_]; [nia|].
  set (rgba0 := replicate (Z.to_nat (nx * ny * 4)) x00).
  destruct (ozt_rows_run buf (Z.to_nat (nx * ny * 4)) nx (Z.to_nat ny) 0 (22, rgba0) w)
    as (evs & [off rgba] & Hrun & (Hoff & Hlen & Hpix) & Hevs).
  - lia.
  - lia.
  - split; [simpl; lia|]. split; [apply length_replicate|]. intros q c Hq. lia.
  - nia.
  - nia.
  - replace (Z.of_nat (Z.to_nat ny)) with ny in Hrun by lia.
    rewrite (bind_Return _ _ _ _ _ Hrun). simpl in *.
    exists evs, rgba. split; [done|]. split; [done|].
    split; [unfold size_of; lia|].
    intros q c Hq Hc. apply Hpix; [|done].
    replace ((0 + Z.of_nat (Z.to_nat ny)) * nx) with (nx * ny) by lia. done.
Qed.

(** ** The OZJ decoder *)

Lemma slice_from_drop buf k :
  0 ≤ k ≤ size_of buf → slice_from buf k = drop (Z.to_nat k) buf.
Proof.
  intros H. unfold slice_from.
  destruct (Z.ltb_spec k 0); [lia|]. by rewrite Z.min_l by lia.
Qed.




(** A marker found by the scan lies in the window. *)
Lemma first_hit_found buf idx k :
  first_hit buf idx = k → k ≠ -1 → (∀ i, i ∈ idx → i ≠ -1) → k ∈ idx.
Proof.
  induction idx as [|i idx IH]; intros Hk Hne Hidx.
  - unfold first_hit in Hk. simpl in Hk. congruence.
  - rewrite first_hit_cons in Hk. destruct (marker_here buf i).
    + subst. left.
    + right. apply IH; [done | done |]. intros j Hj. apply Hidx. by right.
Qed.

Lemma sniff_outcome_OZJ buf k :
  sniff_outcome buf = Return (OZJ k) → 20 ≤ k ≤ 29 ∧ k + 2 < size_of buf.
Proof.
  unfold sniff_outcome.
  destruct (Z.eqb_spec (first_hit buf (scan_window buf)) (-1)) as [|Hne]; simpl.
  - destruct (size_of buf <? 22); [discriminate|].
    destruct (looksLikeOzt buf); discriminate.
  - intros [= <-]. apply scan_window_bounds.
    apply (first_hit_found buf); [done | done |].
    intros i Hi%scan_window_bounds. lia.
Qed.

Lemma sniff_outcome_OZT buf nx ny :
  sniff_outcome buf = Return (OZT nx ny) →
  nx = int16_at buf 16 ∧ ny = int16_at buf 18 ∧ looksLikeOzt buf = true.
Proof.
  unfold sniff_outcome.
  destruct (negb (first_hit buf (scan_window buf) =? -1)); [discriminate|].
  destruct (size_of buf <? 22); [discriminate|].
  destruct (looksLikeOzt buf); [|discriminate].
  by intros [= <- <-].
Qed.





(** ** The loader: dispatch and failures *)

Lemma no_marker_check buf :
  forallb (λ k, negb (marker_here buf k)) (seqZ 20 10) = true → no_marker buf.
Proof.
  intros H k Hk Hm. apply marker_here_iff in Hm.
  rewrite forallb_forall in H.
  assert (Hin : In k (seqZ 20 10)) by (apply list_elem_of_In, elem_of_seqZ; lia).
  apply H in Hin. by rewrite Hm in Hin.
Qed.

Lemma no_marker_small buf : size_of buf < 23 → no_marker buf.
Proof. intros Hs k Hk (_ & _ & H2%at_index_Some). lia. Qed.

Lemma convert_failure ext buf w e :
  sniff_outcome buf = Throw e →
  ∃ evs, convertOzjToBuffer ext buf w = (add_events w evs, Throw e)
         ∧ Forall (in_bounds (size_of buf)) evs
         ∧ (size_of buf < 22 → evs = []).
Proof.
  intros He. destruct (sniff_run buf w) as (evs & Hrun & Hevs & Hsmall).
  rewrite He in Hrun. exists evs. split; [|done].
  unfold convertOzjToBuffer. by rewrite (bind_Throw _ _ _ _ _ Hrun).
Qed.

(** C10.  A buffer of fewer than 22 bytes (it has no room for a marker in
    the scan window) makes [convertOzjToBuffer] fail with 'File too small
    for OZT' without any read of the buffer, hence before any header field
    is read; a buffer of at least 22 bytes without marker that fails the
    OZT condition fails with 'Unsupported OZ? file', a different error. *)
Theorem too_small_error_is_distinct ext (small big : Buffer) (w : World) :
  size_of small < 22 →
  22 ≤ size_of big → no_marker big → ¬ (∃ wd ht, ozt_valid big wd ht) →
  no_marker small
  ∧ convertOzjToBuffer ext small w = (w, Throw (Error "File too small for OZT"))
  ∧ (convertOzjToBuffer ext big w).2 = Throw (Error "Unsupported OZ? file")
  ∧ Error "File too small for OZT" ≠ Error "Unsupported OZ? file".
Proof.
  intros Hsmall Hbig Hnm Hinvalid. split; [apply no_marker_small; lia|].
  split; [|split; [|discriminate]].
  - destruct (convert_failure ext small w _ (sniff_outcome_small small Hsmall))
      as (evs & Hrun & _ & Hnil).
    rewrite Hnil in Hrun by done. by rewrite add_events_nil in Hrun.
  - apply looksLikeOzt_false in Hinvalid.
    pose proof (sniff_outcome_no_marker big Hnm Hbig) as Hout.
    rewrite Hinvalid in Hout.
    destruct (convert_failure ext big w _ Hout) as (evs & -> & _). reflexivity.
Qed.

Lemma too_small_error_is_distinct_witness :
  convertOzjToBuffer demo_ext too_small empty_world
    = (empty_world, Throw (Error "File too small for OZT"))
  ∧ (convertOzjToBuffer demo_ext depth24_ozt empty_world).2
    = Throw (Error "Unsupported OZ? file").
Proof.
  assert (H1 : size_of too_small < 22) by (vm_compute; reflexivity).
  assert (H2 : 22 ≤ size_of depth24_ozt) by (vm_compute; discriminate).
  assert (H3 : no_marker depth24_ozt) by (apply no_marker_check; vm_compute; reflexivity).
  assert (H4 : ¬ (∃ wd ht, ozt_valid depth24_ozt wd ht))
    by (apply looksLikeOzt_false; vm_compute; reflexivity).
  destruct (too_small_error_is_distinct demo_ext too_small depth24_ozt empty_world
              H1 H2 H3 H4) as (_ & Ha & Hb & _).
  split; [exact Ha | exact Hb].
Defined.

(** C1, as the code has it.  A buffer without marker whose header declares
    more pixel data than the buffer holds is refused by the dispatch with
    the unsupported-container error ('Unsupported OZ? file' when it has at
    least 22 bytes), and every byte read lies inside the buffer. *)
Theorem truncated_ozt_is_unsupported ext (buf : Buffer) (w : World) :
  no_marker buf →
  22 + u16le_at buf 16 * u16le_at buf 18 * 4 > size_of buf
  ∨ 22 + int16_at buf 16 * int16_at buf 18 * 4 > size_of buf →
  ∃ evs e, convertOzjToBuffer ext buf w = (add_events w evs, Throw e)
    ∧ errorKind e = UnsupportedContainer
    ∧ (22 ≤ size_of buf → e = Error "Unsupported OZ? file")
    ∧ Forall (in_bounds (size_of buf)) evs.
Proof.
  intros Hnm Hdecl.
  destruct (Z.lt_ge_cases (size_of buf) 22) as [Hlt|Hge].
  - destruct (convert_failure ext buf w _ (sniff_outcome_small buf Hlt))
      as (evs & Hrun & Hevs & _).
    exists evs, (Error "File too small for OZT").
    split; [done|]. split; [reflexivity|]. split; [lia | done].
  - assert (Hf : looksLikeOzt buf = false).
    { apply looksLikeOzt_false. intros (wd & ht & Hv).
      destruct (ozt_valid_int16 _ _ _ Hv) as [Hw Hh].
      destruct Hv as (Hw' & Hh' & _ & _ & _ & _ & _ & Hfit).
      rewrite <- Hw', <- Hh', <- Hw, <- Hh in Hdecl. lia. }
    pose proof (sniff_outcome_no_marker buf Hnm Hge) as Hout. rewrite Hf in Hout.
    destruct (convert_failure ext buf w _ Hout) as (evs & Hrun & Hevs & _).
    exists evs, (Error "Unsupported OZ? file").
    split; [done|]. split; [reflexivity|]. split; [done | done].
Qed.

Lemma truncated_ozt_is_unsupported_witness :
  ∃ evs e, convertOzjToBuffer demo_ext truncated_ozt empty_world
             = (add_events empty_world evs, Throw e)
    ∧ errorKind e = UnsupportedContainer
    ∧ (22 ≤ size_of truncated_ozt → e = Error "Unsupported OZ? file")
    ∧ Forall (in_bounds (size_of truncated_ozt)) evs.
Proof.
  apply (truncated_ozt_is_unsupported demo_ext truncated_ozt empty_world).
  - apply no_marker_small. vm_compute. reflexivity.
  - left. vm_compute. reflexivity.
Defined.

(** C1 as stated fails: the header of [truncated_ozt] declares 2 x 1
    pixels, 30 bytes in all, the buffer has 22 and no marker; the failure
    is the generic 'Unsupported OZ? file', the one a header of depth 24
    gets, and its kind is not TruncatedData. *)
Lemma truncated_ozt_not_TruncatedData :
  no_marker truncated_ozt
  ∧ 22 + u16le_at truncated_ozt 16 * u16le_at truncated_ozt 18 * 4
      > size_of truncated_ozt
  ∧ (convertOzjToBuffer demo_ext truncated_ozt empty_world).2
      = Throw (Error "Unsupported OZ? file")
  ∧ (convertOzjToBuffer demo_ext depth24_ozt empty_world).2
      = Throw (Error "Unsupported OZ? file")
  ∧ errorKind (Error "Unsupported OZ? file") ≠ TruncatedData.
Proof.
  split; [apply no_marker_small; vm_compute; reflexivity|].
  split; [vm_compute; reflexivity|].
  split; [vm_compute; reflexivity|].
  split; [vm_compute; reflexivity|].
  vm_compute. discriminate.
Qed.

(** C2.  The dispatch is a total three-way classification: OZJ at the
    smallest offset 20..29 that carries the marker FF D8 FF inside the
    buffer; without marker and with at least 22 bytes, OZT exactly when the
    condition on width, height, depth and length holds; in every other case
    a failure of kind UnsupportedContainer.  The outcome depends on the
    bytes only, and the run changes nothing but the log of reads. *)
Theorem sniff_classification (buf : Buffer) (w : World) :
  (∀ k, 20 ≤ k ≤ 29 → marker_at buf k → (∀ j, 20 ≤ j < k → ¬ marker_at buf j) →
     (sniff buf w).2 = Return (OZJ k))
  ∧ (no_marker buf → 22 ≤ size_of buf →
     ∀ wd ht, (sniff buf w).2 = Return (OZT wd ht) ↔ ozt_valid buf wd ht)
  ∧ (no_marker buf → size_of buf < 22 ∨ ¬ (∃ wd ht, ozt_valid buf wd ht) →
     ∃ e, (sniff buf w).2 = Throw e ∧ errorKind e = UnsupportedContainer)
  ∧ (∀ w', (sniff buf w').2 = (sniff buf w).2)
  ∧ (∃ evs, (sniff buf w).1 = add_events w evs).
Proof.
  rewrite sniff_result. split; [|split; [|split; [|split]]].
  - intros k Hk Hm Hfirst. by apply sniff_outcome_marker.
  - intros Hnm Hs wd ht. rewrite sniff_outcome_no_marker by done. split.
    + intros Hout. destruct (looksLikeOzt buf) eqn:E; [|discriminate].
      injection Hout as <- <-. by apply looksLikeOzt_iff.
    + intros Hv. destruct (ozt_valid_int16 _ _ _ Hv) as [-> ->].
      apply looksLikeOzt_iff in Hv. by rewrite Hv.
  - intros Hnm [Hlt | Hinvalid].
    + exists (Error "File too small for OZT").
      split; [by apply sniff_outcome_small | reflexivity].
    + destruct (Z.lt_ge_cases (size_of buf) 22) as [Hlt|Hge].
      * exists (Error "File too small for OZT").
        split; [by apply sniff_outcome_small | reflexivity].
      * exists (Error "Unsupported OZ? file"). split; [|reflexivity].
        rewrite sniff_outcome_no_marker by done.
        apply looksLikeOzt_false in Hinvalid. by rewrite Hinvalid.
  - intros w'. apply sniff_result.
  - destruct (sniff_run buf w) as (evs & -> & _). by exists evs.
Qed.

Lemma sniff_classification_witness :
  (sniff example_ozj empty_world).2 = Return (OZJ 20)
  ∧ (sniff example_ozt empty_world).2 = Return (OZT 2 1)
  ∧ ∃ e, (sniff truncated_ozt empty_world).2 = Throw e
         ∧ errorKind e = UnsupportedContainer.
Proof.
  split; [|split].
  - apply (proj1 (sniff_classification example_ozj empty_world) 20).
    + lia.
    + repeat split.
    + intros j Hj. lia.
  - apply (proj1 (proj2 (sniff_classification example_ozt empty_world))).
    + apply no_marker_check. vm_compute. reflexivity.
    + vm_compute. discriminate.
    + unfold ozt_valid. vm_compute. repeat split; discriminate.
  - apply (proj1 (proj2 (proj2 (sniff_classification truncated_ozt empty_world)))).
    + apply no_marker_small. vm_compute. reflexivity.
    + right. apply looksLikeOzt_false. vm_compute. reflexivity.
Defined.

Lemma ozjToPng_result ext buf k w :
  17 < size_of buf → (ozjToPng ext buf k w).2 = ozj_outcome ext (slice_from buf k).
Proof.
  intros Hs. unfold ozjToPng, ozj_outcome.
  rewrite (bind_Return _ _ _ _ _ (view_getUint8_run buf 17 w ltac:(lia))).
  unfold try_catch, call_codec, bind, emit, ret, throw, console_log.
  destruct (sharp_toBuffer ext (slice_from buf k)); simpl; [|done].
  destruct (sharp_metadata ext (slice_from buf k)) as [[wd ht]|]; simpl; done.
Qed.

Lemma convert_OZJ_result ext buf w k :
  sniff_outcome buf = Return (OZJ k) →
  (convertOzjToBuffer ext buf w).2 = ozj_outcome ext (drop (Z.to_nat k) buf).
Proof.
  intros Hout. pose proof (sniff_outcome_OZJ buf k Hout) as Hk.
  destruct (sniff_run buf w) as (evs & Hrun & _). rewrite Hout in Hrun.
  unfold convertOzjToBuffer. rewrite (bind_Return _ _ _ _ _ Hrun).
  rewrite ozjToPng_result by lia. by rewrite slice_from_drop by lia.
Qed.





(** The rejection at work: the codec of [rejecting_ext] refuses the stream
    of [example_ozj]. *)
Example ozj_rejected_once :
  (convertOzjToBuffer rejecting_ext example_ozj empty_world).2
    = Throw (Error "Failed to decode JPEG: Error: Input buffer contains unsupported image format")
  ∧ codec_calls (events (convertOzjToBuffer rejecting_ext example_ozj empty_world).1)
    = [Codec "sharp.toBuffer" [xff; xd8; xff; xe0; x00; x10]].
Proof. split; vm_compute; reflexivity. Qed.

(** ** The OZT decoder: pixels *)

Lemma at_index_drop buf (n : nat) j :
  0 ≤ j → at_index (drop n buf) j = at_index buf (Z.of_nat n + j).
Proof.
  intros Hj. unfold at_index.
  destruct (Z.ltb_spec j 0); [lia|]. destruct (Z.ltb_spec (Z.of_nat n + j) 0); [lia|].
  rewrite lookup_drop. f_equal. lia.
Qed.

Lemma at_index_byte_at buf i :
  0 ≤ i < size_of buf → at_index buf i = Some (byte_at buf i).
Proof.
  intros H. destruct (at_index_lt buf i H) as [b Hb].
  unfold byte_at. by rewrite Hb.
Qed.

(** C3.  A buffer classified OZT with width [wd] and height [ht] decodes
    to a bitmap of these dimensions whose pixel at row [y], column [x] is
    the source quad number [y * wd + x] counted from offset 22, its bytes
    (B, G, R, A) reordered to (R, G, B, A), rows in the order of the source;
    and a 2 x 1 header of depth 32 followed by 00 00 FF FF 10 20 30 FF
    decodes to the pixels (FF,00,00,FF) and (30,20,10,FF). *)
Theorem ozt_decode ext (buf : Buffer) (w : World) (wd ht : Z) :
  (sniff buf w).2 = Return (OZT wd ht) →
  (∃ w' bm, convertOzjToBuffer ext buf w = (w', Return bm)
     ∧ width bm = wd ∧ height bm = ht
     ∧ size_of (buffer bm) = wd * ht * 4
     ∧ ∀ x y, 0 ≤ x < wd → 0 ≤ y < ht →
         ∃ b g r a, source_quad buf (y * wd + x) = Some (b, g, r, a)
                    ∧ pixel_at bm x y = Some (r, g, b, a))
  ∧ (∀ reserved r21, length reserved = 16%nat →
       (convertOzjToBuffer ext (ozt_header_2x1 reserved r21 ++ two_quads) w).2
       = Return (mkBitmap [xff; x00; x00; xff; x30; x20; x10; xff] 2 1)).
Proof.
  rewrite sniff_result. intros Hout. split.
  - destruct (sniff_outcome_OZT buf wd ht Hout) as (-> & -> & Hv%looksLikeOzt_iff).
    destruct Hv as (_ & _ & Hw & Hh & _ & _ & _ & Hfit).
    set (nx := int16_at buf 16) in *. set (ny := int16_at buf 18) in *.
    destruct (sniff_run buf w) as (evs & Hrun & _). rewrite Hout in Hrun.
    destruct (oztToPng_run buf nx ny (add_events w evs) Hw Hh Hfit)
      as (evs' & rgba & Hdec & _ & Hlen & Hpix).
    exists (add_events (add_events w evs) evs'), (mkBitmap rgba nx ny).
    unfold convertOzjToBuffer. rewrite (bind_Return _ _ _ _ _ Hrun).
    split; [exact Hdec|]. split; [done|]. split; [done|]. split; [done|].
    intros x y Hx Hy.
    assert (Hq : 0 ≤ y * nx + x < nx * ny) by nia.
    set (q := y * nx + x) in *.
    exists (byte_at buf (22 + 4 * q)), (byte_at buf (22 + 4 * q + 1)),
           (byte_at buf (22 + 4 * q + 2)), (byte_at buf (22 + 4 * q + 3)).
    split.
    + unfold source_quad, quad_at.
      rewrite !at_index_drop by lia. change (Z.of_nat 22) with 22.
      rewrite !Z.add_assoc.
      by rewrite !at_index_byte_at by lia.
    + unfold pixel_at, quad_at. simpl. fold q.
      pose proof (Hpix q 0 Hq ltac:(lia)) as H0.
      pose proof (Hpix q 1 Hq ltac:(lia)) as H1.
      pose proof (Hpix q 2 Hq ltac:(lia)) as H2.
      pose proof (Hpix q 3 Hq ltac:(lia)) as H3.
      rewrite Z.add_0_r in H0. rewrite H0, H1, H2, H3.
      change (bgra_source 0) with 2. change (bgra_source 1) with 1.
      change (bgra_source 2) with 0. change (bgra_source 3) with 3.
      by rewrite Z.add_0_r.
  - intros reserved r21 Hlen.
    do 16 (destruct reserved as [|? reserved]; [discriminate|]).
    destruct reserved; [|discriminate].
    destruct r21; vm_compute; reflexivity.
Qed.

Lemma ozt_decode_witness :
  ∃ w' bm, convertOzjToBuffer demo_ext example_ozt empty_world = (w', Return bm)
    ∧ width bm = 2 ∧ height bm = 1
    ∧ size_of (buffer bm) = 2 * 1 * 4
    ∧ ∀ x y, 0 ≤ x < 2 → 0 ≤ y < 1 →
        ∃ b g r a, source_quad example_ozt (y * 2 + x) = Some (b, g, r, a)
                   ∧ pixel_at bm x y = Some (r, g, b, a).
Proof.
  apply (ozt_decode demo_ext example_ozt empty_world 2 1).
  vm_compute. reflexivity.
Defined.

(** ** Computations that leave the materials alone *)

Lemma kept_ret {A} (a : A) : materials_kept (ret a).
Proof. by intros w. Qed.

Lemma kept_throw {A} e : materials_kept (@throw A e).
Proof. by intros w. Qed.

Lemma kept_emit e : materials_kept (emit e).
Proof. by intros w. Qed.

Lemma kept_console_log s : materials_kept (console_log s).
Proof. by intros w. Qed.

Lemma kept_dispose t : materials_kept (dispose t).
Proof. by intros w. Qed.

Lemma kept_lift {A} (r : outcome A) : materials_kept (lift r).
Proof. destruct r; [apply kept_ret | apply kept_throw]. Qed.

Lemma kept_bind {A B} (m : M A) (k : A → M B) :
  materials_kept m → (∀ a, materials_kept (k a)) → materials_kept (bind m k).
Proof.
  intros Hm Hk w. unfold bind. specialize (Hm w).
  destruct (m w) as [w1 [a|e]]; simpl in *; [|done].
  by rewrite Hk.
Qed.

Lemma kept_try_catch {A} (m : M A) (h : exn → M A) :
  materials_kept m → (∀ e, materials_kept (h e)) → materials_kept (try_catch m h).
Proof.
  intros Hm Hh w. unfold try_catch. specialize (Hm w).
  destruct (m w) as [w1 [a|e]]; simpl in *; [done|].
  by rewrite Hh.
Qed.

Lemma kept_for_each {A S} (xs : list A) (body : A → S → M S) s :
  (∀ x s, materials_kept (body x s)) → materials_kept (for_each xs body s).
Proof.
  intros Hbody. revert s. induction xs as [|x xs IH]; intros s; simpl.
  - apply kept_ret.
  - apply kept_bind; [apply Hbody | intros s'; apply IH].
Qed.

Lemma kept_call_codec {A} op input (r : outcome A) :
  materials_kept (call_codec op input r).
Proof.
  unfold call_codec. apply kept_bind; [apply kept_emit|].
  intros _. destruct r; [apply kept_ret | apply kept_throw].
Qed.

Ltac kept :=
  repeat first
    [ apply kept_ret | apply kept_throw | apply kept_emit | apply kept_console_log
    | apply kept_dispose | apply kept_lift | apply kept_call_codec
    | apply kept_bind; [|intros ?] | apply kept_try_catch; [|intros ?]
    | apply kept_for_each; intros ? ?
    | match goal with
      | |- materials_kept (if ?c then _ else _) => destruct c
      | |- materials_kept (match ?x with _ => _ end) => destruct x
      end ].

Lemma kept_scan_marker buf idx : materials_kept (scan_marker buf idx).
Proof.
  induction idx as [|i idx IH]; simpl; [apply kept_ret|].
  unfold u8_get. kept. exact IH.
Qed.

Lemma kept_sniff buf : materials_kept (sniff buf).
Proof.
  unfold sniff. apply kept_bind; [apply kept_scan_marker|]. intros k.
  unfold view_getInt16, view_getUint8. kept.
Qed.

Lemma kept_convertOzjToBuffer ext buf : materials_kept (convertOzjToBuffer ext buf).
Proof.
  unfold convertOzjToBuffer. apply kept_bind; [apply kept_sniff|].
  intros [k | nx ny].
  - unfold ozjToPng, view_getUint8. kept.
  - unfold oztToPng, ozt_row, ozt_pixel, u8_get. kept.
Qed.

Lemma kept_png_data_url ext b : materials_kept (png_data_url ext b).
Proof. unfold png_data_url. kept. Qed.

Lemma kept_load_texture ext file : materials_kept (load_texture ext file).
Proof.
  unfold load_texture, convertTgaToDataUrl, convertOzjToDataUrl, convertTgaToBuffer.
  apply kept_bind; [apply kept_lift|]. intros buf.
  apply kept_bind; [|intros ?; apply kept_ret].
  repeat match goal with
  | |- materials_kept (if ?c then _ else _) => destruct c
  end;
  repeat first
    [ apply kept_convertOzjToBuffer | apply kept_png_data_url
    | apply kept_ret | apply kept_call_codec
    | apply kept_bind; [|intros ?] ].
Qed.

(** ** The binder: one file *)

Lemma loadAndApplyTexture_unfold ext group filePath :
  loadAndApplyTexture ext group filePath =
    (let* tex := load_texture ext filePath in
     let* meshList := for_each (traverse group)
                        (collect_mesh (file_base ext filePath) (file_ext ext filePath)) [] in
     let* applied := for_each meshList (apply_body (file_ext ext filePath) tex) false in
     if negb applied then console_log (no_match_warning (path_basename ext filePath))
     else ret tt).
Proof.
  unfold loadAndApplyTexture, apply_body, is_oz, file_base, file_ext.
  by destruct (String.eqb _ "ozj" || String.eqb _ "ozt").
Qed.

(** The mesh list: the world is not touched, and an entry matches exactly
    when its mesh accepts the file. *)
Lemma collect_mesh_run fb fe obj acc w :
  ∃ r, collect_mesh fb fe obj acc w = (w, r)
    ∧ ∀ ml, r = Return ml →
        (tagged obj = None ∧ ml = acc)
        ∨ (∃ p b, tagged obj = Some p ∧ ml = acc ++ [mkMeshEntry obj p b]
                  ∧ (b = true ↔ accepts fb fe obj)).
Proof.
  unfold collect_mesh, accepts. destruct (tagged obj) as [p|] eqn:Ht.
  - destruct (normalizeWanted p) as [wb we] eqn:Hn.
    destruct (extMatch we fe) as [b|e] eqn:Hm.
    + eexists; split; [reflexivity|]. intros ml [= <-]. right.
      exists p, (b && String.eqb wb fb). split; [done|]. split; [done|].
      rewrite andb_true_iff, String.eqb_eq. split.
      * intros [-> ->]. exists p. rewrite Hn. simpl. by rewrite Hm.
      * intros (p' & [= <-] & Hb & He). rewrite Hn in Hb, He. simpl in *.
        split; congruence.
    + eexists; split; [reflexivity|]. discriminate.
  - eexists; split; [reflexivity|]. intros ml [= <-]. by left.
Qed.

Lemma collect_run fb fe objs : ∀ acc w,
  ∃ r, for_each objs (collect_mesh fb fe) acc w = (w, r)
    ∧ ∀ ml, r = Return ml →
        ∃ new, ml = acc ++ new
          ∧ (∀ m, m ∈ new → mesh m ∈ objs ∧ (isMatch m = true ↔ accepts fb fe (mesh m)))
          ∧ (∀ obj, obj ∈ objs → accepts fb fe obj →
               ∃ m, m ∈ new ∧ mesh m = obj ∧ isMatch m = true).
Proof.
  induction objs as [|obj objs IH]; intros acc w.
  - exists (Return acc). split; [reflexivity|]. intros ml [= <-].
    exists []. rewrite app_nil_r. split; [done|].
    split; [intros m Hm | intros o Ho]; by apply elem_of_nil in Hm || apply elem_of_nil in Ho.
  - simpl for_each. destruct (collect_mesh_run fb fe obj acc w) as (r1 & Hr1 & Hspec1).
    destruct r1 as [acc1|e].
    + rewrite (bind_Return _ _ _ _ _ Hr1).
      destruct (IH acc1 w) as (r & Hr & Hspec). exists r. split; [done|].
      intros ml Hml. destruct (Hspec ml Hml) as (new & -> & Hsound & Hcomplete).
      destruct (Hspec1 acc1 eq_refl) as [[Hnone ->] | (p & b & Htag & -> & Hb)].
      * exists new. split; [done|]. split.
        -- intros m Hm. destruct (Hsound m Hm). split; [by right | done].
        -- intros o Ho Hacc. apply elem_of_cons in Ho as [-> | Ho].
           ++ destruct Hacc as (p & Hp & _). congruence.
           ++ by apply Hcomplete.
      * exists (mkMeshEntry obj p b :: new). rewrite <- app_assoc. split; [done|]. split.
        -- intros m Hm. apply elem_of_cons in Hm as [-> | Hm].
           ++ simpl. split; [left | done].
           ++ destruct (Hsound m Hm). split; [by right | done].
        -- intros o Ho Hacc. apply elem_of_cons in Ho as [-> | Ho].
           ++ exists (mkMeshEntry obj p b). split; [left|]. split; [done|].
              simpl. by apply Hb.
           ++ destruct (Hcomplete o Ho Hacc) as (m & Hm & Hmo & Him).
              exists m. split; [by right | done].
    + exists (Throw e). rewrite (bind_Throw _ _ _ _ _ Hr1). split; [done|]. discriminate.
Qed.

(** ** Loops that rebind materials *)

Section Rebinding.

Context {A S : Type} (sel : A → bool) (idof : A → nat)
        (f : Material → Material) (hit : S → S) (body : A → S → M S).
Hypothesis Hbody : binds_with sel idof f hit body.



Lemma rebind_all (P : Material → Prop) :
  (∀ mat, P (f mat)) →
  ∀ xs s w w' r, for_each xs body s w = (w', Return r) →
    (∀ id mat, materials w !! id = Some mat → P mat →
       ∃ mat', materials w' !! id = Some mat' ∧ P mat')
    ∧ (∀ x, x ∈ xs → sel x = true →
       ∃ mat', materials w' !! idof x = Some mat' ∧ P mat')
    ∧ r = foldl (λ s x, if sel x then hit s else s) s xs
    ∧ console w' = console w.
Proof.
  intros HP. induction xs as [|x xs IH]; intros s w w' r Hrun.
  - simpl in Hrun. injection Hrun as <- <-.
    split; [eauto|]. split; [intros x Hx; by apply elem_of_nil in Hx|]. done.
  - simpl for_each in Hrun. unfold bind in Hrun. simpl foldl.
    destruct (Hbody x s w) as (Hskip & Hnone & Hsome).
    destruct (sel x) eqn:Hsel.
    + destruct (materials w !! idof x) as [mat|] eqn:Hmat.
      * destruct (Hsome eq_refl mat eq_refl) as (w1 & Hstep & Hnew & Hother & Hcon).
        rewrite Hstep in Hrun.
        destruct (IH _ _ _ _ Hrun) as (Hpres & Hall & Hr & Hcon').
        split; [|split; [|split]].
        -- intros id mat0 Hid Hmat0. destruct (decide (id = idof x)) as [->|Hne].
           ++ apply (Hpres _ _ Hnew). apply HP.
           ++ apply (Hpres id mat0); [|done]. by rewrite Hother.
        -- intros y Hy Hsy. apply elem_of_cons in Hy as [-> | Hy].
           ++ apply (Hpres _ _ Hnew). apply HP.
           ++ by apply Hall.
        -- done.
        -- congruence.
      * destruct (Hnone eq_refl eq_refl) as (e & Hstep). rewrite Hstep in Hrun. discriminate.
    + rewrite (Hskip eq_refl) in Hrun.
      destruct (IH _ _ _ _ Hrun) as (Hpres & Hall & Hr & Hcon').
      split; [done|]. split; [|done].
      intros y Hy Hsy. apply elem_of_cons in Hy as [-> | Hy]; [congruence | by apply Hall].
Qed.

End Rebinding.

Lemma apply_oz_binds fe tex :
  binds_with isMatch (λ m, material (mesh m)) (bound_oz fe tex) (λ _, true)
             (apply_oz fe tex).
Proof.
  intros m applied w. unfold apply_oz. split; [|split].
  - by intros ->.
  - intros -> Hnone. unfold bind, get_material. rewrite Hnone. eauto.
  - intros -> mat Hmat. unfold bind at 1. unfold get_material. rewrite Hmat.
    unfold bound_oz, oz_flags, dispose_map.
    destruct (map mat); destruct (String.eqb fe "ozt");
      (eexists; split; [reflexivity|]; simpl;
       split; [rewrite !lookup_alter_eq, Hmat; reflexivity|];
       split; [intros id Hid; by rewrite !lookup_alter_ne by done | reflexivity]).
Qed.

Lemma apply_plain_binds tex :
  binds_with isMatch (λ m, material (mesh m)) (bound_plain tex) (λ _, true)
             (apply_plain tex).
Proof.
  intros m applied w. unfold apply_plain. split; [|split].
  - by intros ->.
  - intros -> Hnone. unfold bind, get_material. rewrite Hnone. eauto.
  - intros -> mat Hmat. unfold bind at 1. unfold get_material. rewrite Hmat.
    unfold bound_plain, dispose_map.
    destruct (map mat);
      (eexists; split; [reflexivity|]; simpl;
       split; [rewrite !lookup_alter_eq, Hmat; reflexivity|];
       split; [intros id Hid; by rewrite !lookup_alter_ne by done | reflexivity]).
Qed.

Lemma apply_body_binds fe tex :
  binds_with isMatch (λ m, material (mesh m)) (bound_material fe tex) (λ _, true)
             (apply_body fe tex).
Proof.
  unfold bound_material, apply_body.
  destruct (is_oz fe); [apply apply_oz_binds | apply apply_plain_binds].
Qed.

Lemma bind_inv_Return {A B} (m : M A) (k : A → M B) w w' b :
  bind m k w = (w', Return b) →
  ∃ w1 a, m w = (w1, Return a) ∧ k a w1 = (w', Return b).
Proof.
  unfold bind. destruct (m w) as [w1 [a|e]]; [eauto | discriminate].
Qed.

Lemma bound_material_like fe tex mat : bound_like fe tex (bound_material fe tex mat).
Proof.
  unfold bound_like, bound_material, is_oz, bound_oz, bound_plain, oz_flags.
  split; [|split; [|split]].
  - by destruct (String.eqb fe "ozj" || String.eqb fe "ozt"), (String.eqb fe "ozt").
  - by destruct (String.eqb fe "ozj" || String.eqb fe "ozt"), (String.eqb fe "ozt").
  - intros ->. simpl. done.
  - intros ->. simpl. done.
Qed.


(** A bind that returns has decoded the file and bound every accepting
    mesh. *)
Lemma loadAndApplyTexture_bound ext group file w w' :
  loadAndApplyTexture ext group file w = (w', Return tt) →
  ∃ w1 tex, load_texture ext file w = (w1, Return tex)
    ∧ ∀ obj, obj ∈ traverse group →
        accepts (file_base ext file) (file_ext ext file) obj →
        ∃ mat, materials w' !! material obj = Some mat
               ∧ bound_like (file_ext ext file) tex mat.
Proof.
  rewrite loadAndApplyTexture_unfold. intros Hrun.
  apply bind_inv_Return in Hrun as (w1 & tex & Hload & Hrun).
  apply bind_inv_Return in Hrun as (w1' & ml & Hcollect & Hrun).
  apply bind_inv_Return in Hrun as (w2 & applied & Happly & Hrun).
  destruct (collect_run (file_base ext file) (file_ext ext file) (traverse group) [] w1)
    as (r & Hr & Hspec).
  rewrite Hr in Hcollect. injection Hcollect as <- ->.
  destruct (Hspec ml eq_refl) as (new & Hml & _ & Hcomplete). simpl in Hml. subst new.
  destruct (rebind_all _ _ _ _ _ (apply_body_binds (file_ext ext file) tex)
              (bound_like (file_ext ext file) tex)
              (bound_material_like _ _) _ _ _ _ _ Happly) as (_ & Hall & _ & _).
  exists w1, tex. split; [done|].
  intros obj Hobj Hacc. destruct (Hcomplete obj Hobj Hacc) as (m & Hm & <- & Him).
  destruct (Hall m Hm Him) as (mat & Hmat & Hlike).
  exists mat. split; [|done].
  destruct applied; simpl in Hrun; injection Hrun as <-; done.
Qed.

Lemma collect_total fb fe objs : ∀ acc w,
  (∀ obj p, obj ∈ objs → tagged obj = Some p →
     ∃ b, extMatch (normalizeWanted p).2 fe = Return b) →
  ∃ ml, for_each objs (collect_mesh fb fe) acc w = (w, Return ml).
Proof.
  induction objs as [|obj objs IH]; intros acc w Htot; [by exists acc|].
  simpl for_each.
  assert (Hstep : ∃ acc1, collect_mesh fb fe obj acc w = (w, Return acc1)).
  { unfold collect_mesh. destruct (tagged obj) as [p|] eqn:Ht; [|by eexists].
    destruct (Htot obj p ltac:(left) Ht) as (b & Hb).
    destruct (normalizeWanted p) as [wb we]. simpl in Hb.
    unfold bind. rewrite Hb. by eexists. }
  destruct Hstep as (acc1 & Hstep). rewrite (bind_Return _ _ _ _ _ Hstep).
  apply IH. intros o p Ho. apply Htot. by right.
Qed.


(** ** The binder of [applyTextureToMeshes] *)

Lemma apply_to_mesh_binds ext textureName texture :
  binds_with (selects ext textureName) material (bound_by_name ext texture) (λ u, u)
             (apply_to_mesh ext textureName texture).
Proof.
  intros obj [] w. unfold apply_to_mesh, selects, wanted_base.
  destruct (tagged obj) as [p|]; [|by repeat split].
  split; [|split].
  - by intros ->.
  - intros -> Hnone. unfold bind, get_material. rewrite Hnone. eauto.
  - intros -> mat Hmat. unfold bind at 1. unfold get_material. rewrite Hmat.
    unfold bound_by_name, name_flags, dispose_map.
    destruct (map mat);
      destruct (String.eqb (toLowerCase (path_extname ext (tex_name texture))) ".ozt");
      (eexists; split; [reflexivity|]; simpl;
       split; [rewrite !lookup_alter_eq, Hmat; reflexivity|];
       split; [intros id Hid; by rewrite !lookup_alter_ne by done | reflexivity]).
Qed.

(** ** The job *)







(** ** The equivalence of extensions *)

Lemma mem_string_iff x l : mem_string x l = true ↔ x ∈ l.
Proof.
  unfold mem_string. rewrite existsb_exists. split.
  - intros (y & Hy & ->%String.eqb_eq). by apply list_elem_of_In.
  - intros H. exists x. split; [by apply list_elem_of_In | apply String.eqb_refl].
Qed.

Lemma mem_string_false x l : x ∉ l → mem_string x l = false.
Proof.
  intros H. destruct (mem_string x l) eqn:E; [|done].
  by apply mem_string_iff in E.
Qed.

Lemma opt_includes_own e x :
  e ∉ object_prototype_keys →
  opt_includes (equivExt e) x
    = Return (option_map (mem_string x) (assoc e equivExt_table)).
Proof.
  intros He. unfold equivExt.
  destruct (assoc e equivExt_table); [done|].
  by rewrite mem_string_false.
Qed.

Lemma truthy_includes e x :
  truthy (option_map (mem_string x) (assoc e equivExt_table)) = true
  ↔ x ∈ equivalents e.
Proof.
  unfold equivalents. destruct (assoc e equivExt_table); simpl.
  - apply mem_string_iff.
  - split; [discriminate | intros H; by apply elem_of_nil in H].
Qed.

(** Off the names that [Object.prototype] defines, [extMatch] returns, and
    returns true exactly when the contract says so. *)
Lemma extMatch_matches wanted candidate :
  wanted ∉ object_prototype_keys → candidate ∉ object_prototype_keys →
  ∃ b, extMatch wanted candidate = Return b ∧ (b = true ↔ matches wanted candidate).
Proof.
  intros Hw Hc. unfold extMatch, matches.
  destruct (String.eqb_spec wanted candidate) as [->|Hne].
  { exists true. split; [done|]. split; [by left | done]. }
  rewrite !opt_includes_own by done.
  pose proof (truthy_includes wanted candidate) as H1.
  pose proof (truthy_includes candidate wanted) as H2.
  destruct (truthy _) eqn:E1.
  - exists true. split; [done|]. split; [|done]. intros _. right. left. by apply H1.
  - eexists. split; [done|]. rewrite H2. split; [tauto|].
    intros [Heq | [Hin | Hin]]; [done | | done].
    apply H1 in Hin. congruence.
Qed.

Lemma extMatch_refl e : extMatch e e = Return true.
Proof. unfold extMatch. by rewrite String.eqb_refl. Qed.

Lemma not_matches_constructor_jpg : ¬ matches "constructor" "jpg".
Proof.
  intros [H | [H | H]]; [discriminate | |].
  - vm_compute in H. by apply elem_of_nil in H.
  - change (equivalents "jpg") with ["ozj"; "jpeg"] in H.
    apply elem_of_cons in H as [H | H]; [discriminate|].
    apply elem_of_cons in H as [H | H]; [discriminate|].
    by apply elem_of_nil in H.
Qed.

(** ** Meshes and their tags *)


Lemma accepts_is_tagged fb fe o : accepts fb fe o → is_Some (tagged o).
Proof. intros (p & Hp & _). by exists p. Qed.

(** ** The binder: theorems *)

(** C6 at work on the extensions of the table and on unknown ones. *)
Example extMatch_examples :
  extMatch "png" "ozj" = Return true
  ∧ extMatch "jpg" "tga" = Return false
  ∧ extMatch "tga" "ozt" = Return true
  ∧ extMatch "bmp" "jpg" = Return false.
Proof. repeat split. Qed.

(** C6, where the code departs from it.  The contract makes
    matches("constructor", "jpg") false, an extension outside the table
    having no equivalents; the lookup [equivExt["constructor"]] finds the
    property inherited from [Object.prototype], and calling its missing
    [includes] throws. *)
Theorem extMatch_prototype_key_throws :
  extMatch "constructor" "jpg"
    = Throw (TypeError "equivExt[...]?.includes is not a function")
  ∧ extMatch "jpg" "__proto__"
    = Throw (TypeError "equivExt[...]?.includes is not a function")
  ∧ ¬ matches "constructor" "jpg".
Proof.
  split; [reflexivity|]. split; [reflexivity|]. apply not_matches_constructor_jpg.
Qed.

(** C5, as the code has it.  After a bind that returns, every mesh that
    accepted the file has flags set from the extension of the file, whatever
    extension the mesh asked for: transparent, normal blending and no depth
    write for ozt; opaque, no blending and depth write for ozj.  The same
    holds in [applyTextureToMeshes], by the extension of the texture's
    name.  So a mesh tagged wing.tga bound to a file of base wing and
    extension ozt ends transparent with depth write off. *)
Theorem flags_follow_accepted_extension ext (group : Object3D) :
  (∀ file w w' obj,
     loadAndApplyTexture ext group file w = (w', Return tt) →
     obj ∈ traverse group →
     accepts (file_base ext file) (file_ext ext file) obj →
     ∃ mat tex, materials w' !! material obj = Some mat ∧ map mat = Some tex
       ∧ (file_ext ext file = "ozt" →
            transparent mat = true ∧ blending mat = NormalBlending ∧ depthWrite mat = false)
       ∧ (file_ext ext file = "ozj" →
            transparent mat = false ∧ blending mat = NoBlending ∧ depthWrite mat = true))
  ∧ (∀ textureName texture w w' obj,
     applyTextureToMeshes ext group textureName texture w = (w', Return tt) →
     obj ∈ traverse group → selects ext textureName obj = true →
     ∃ mat, materials w' !! material obj = Some mat ∧ map mat = Some texture
       ∧ (toLowerCase (path_extname ext (tex_name texture)) = ".ozt" →
            transparent mat = true ∧ blending mat = NormalBlending ∧ depthWrite mat = false)
       ∧ (toLowerCase (path_extname ext (tex_name texture)) = ".ozj" →
            transparent mat = false ∧ blending mat = NoBlending ∧ depthWrite mat = true))
  ∧ (∀ file w w' obj,
     loadAndApplyTexture ext group file w = (w', Return tt) →
     obj ∈ traverse group → tagged obj = Some "wing.tga" →
     file_base ext file = "wing" → file_ext ext file = "ozt" →
     ∃ mat, materials w' !! material obj = Some mat
       ∧ transparent mat = true ∧ depthWrite mat = false).
Proof.
  assert (Hlive : ∀ file w w' obj,
     loadAndApplyTexture ext group file w = (w', Return tt) →
     obj ∈ traverse group →
     accepts (file_base ext file) (file_ext ext file) obj →
     ∃ mat tex, materials w' !! material obj = Some mat
       ∧ bound_like (file_ext ext file) tex mat).
  { intros file w w' obj Hrun Hobj Hacc.
    destruct (loadAndApplyTexture_bound ext group file w w' Hrun) as (w1 & tex & _ & Hall).
    destruct (Hall obj Hobj Hacc) as (mat & Hmat & Hlike). eauto. }
  split; [|split].
  - intros file w w' obj Hrun Hobj Hacc.
    destruct (Hlive file w w' obj Hrun Hobj Hacc) as (mat & tex & Hmat & Hm & _ & Hozt & Hozj).
    exists mat, tex. done.
  - intros textureName texture w w' obj Hrun Hobj Hsel.
    unfold applyTextureToMeshes in Hrun.
    destruct (rebind_all _ _ _ _ _ (apply_to_mesh_binds ext textureName texture)
                (λ mat, map mat = Some texture
                   ∧ (toLowerCase (path_extname ext (tex_name texture)) = ".ozt" →
                        transparent mat = true ∧ blending mat = NormalBlending
                        ∧ depthWrite mat = false)
                   ∧ (toLowerCase (path_extname ext (tex_name texture)) = ".ozj" →
                        transparent mat = false ∧ blending mat = NoBlending
                        ∧ depthWrite mat = true))) with (xs := traverse group)
                (s := tt) (w := w) (w' := w') (r := tt) as (_ & Hall & _); [|done|].
    { intros mat. unfold bound_by_name, name_flags.
      split; [by destruct (String.eqb _ ".ozt")|].
      split; intros ->; done. }
    destruct (Hall obj Hobj Hsel) as (mat & Hmat & HP). exists mat. tauto.
  - intros file w w' obj Hrun Hobj Htag Hbase Hext.
    destruct (Hlive file w w' obj Hrun Hobj) as (mat & tex & Hmat & _ & _ & Hozt & _).
    { exists "wing.tga". rewrite Hbase, Hext. by repeat split. }
    exists mat. destruct (Hozt Hext) as (? & ? & ?). done.
Qed.

Lemma flags_follow_accepted_extension_witness :
  (∃ mat, materials (loadAndApplyTexture demo_ext wing_group "tex/wing.ozt" (world_of 1)).1
            !! material wing_mesh = Some mat
     ∧ transparent mat = true ∧ depthWrite mat = false)
  ∧ (∃ mat tex,
       materials (loadAndApplyTexture demo_ext weapon_group "tex/weapon01.jpg" (world_of 2)).1
         !! material weapon_mesh = Some mat
       ∧ map mat = Some tex).
Proof.
  destruct (flags_follow_accepted_extension demo_ext wing_group) as (_ & _ & Hwing).
  destruct (flags_follow_accepted_extension demo_ext weapon_group) as (Hlive & _ & _).
  split.
  - apply (Hwing "tex/wing.ozt" (world_of 1) _ wing_mesh).
    + vm_compute. reflexivity.
    + right. left.
    + reflexivity.
    + reflexivity.
    + reflexivity.
  - destruct (Hlive "tex/weapon01.jpg" (world_of 2)
                (loadAndApplyTexture demo_ext weapon_group "tex/weapon01.jpg" (world_of 2)).1
                weapon_mesh)
      as (mat & tex & Hmat & Hmap & _).
    + vm_compute. reflexivity.
    + right. right. left.
    + exists "Data/Item/Weapon01.OZJ". by repeat split.
    + exists mat, tex. done.
Defined.

(** C5 as stated fails for tga: the mesh tagged wing.tga is bound to the
    file wing.tga, an extension of the alpha-bearing family, and its
    material stays opaque. *)
Lemma tga_bind_stays_opaque :
  let run := loadAndApplyTexture demo_ext wing_group "tex/wing.tga" (world_of 1) in
  run.2 = Return tt
  ∧ file_ext demo_ext "tex/wing.tga" = "tga"
  ∧ accepts (file_base demo_ext "tex/wing.tga") (file_ext demo_ext "tex/wing.tga") wing_mesh
  ∧ ∃ mat, materials run.1 !! material wing_mesh = Some mat
      ∧ is_Some (map mat)
      ∧ transparent mat = false ∧ depthWrite mat = true.
Proof.
  split; [vm_compute; reflexivity|]. split; [reflexivity|]. split.
  - exists "wing.tga". by repeat split.
  - eexists. split; [vm_compute; reflexivity|]. simpl. split; [eauto | done].
Qed.







(** C8, where the code departs from it.  The job of [convertBmdToGlb]
    stops at the first file that fails to decode: the file for "broken" is
    refused by the loader, the job throws, and the mesh for "weapon01" is
    never bound although its file decodes and the mesh accepts it.  On the
    same input [loadAndApplyTextures], whose loop body sits in a try/catch,
    logs the failure and binds that mesh. *)
Theorem job_aborts_on_decode_failure :
  let run := convertBmdToGlb demo_ext weapon_group weapon_found (world_of 2) in
  let sibling := loadAndApplyTextures demo_ext weapon_group weapon_found (world_of 2) in
  run.2 = Throw (Error "File too small for OZT")
  ∧ materials run.1 !! material weapon_mesh = Some default_material
  ∧ (load_texture demo_ext "tex/weapon01.jpg" (world_of 2)).2
      = Return (finish_texture "weapon01.jpg"
                  (texture_needsUpdate
                     (set_src "data:image/jpeg;base64," (DataTexture red_pixel))))
  ∧ accepts (file_base demo_ext "tex/weapon01.jpg") (file_ext demo_ext "tex/weapon01.jpg")
            weapon_mesh
  ∧ sibling.2 = Return tt
  ∧ console sibling.1
      = ["Failed to load texture tex/broken.ozt: Error: File too small for OZT"]
  ∧ ∃ mat, materials sibling.1 !! material weapon_mesh = Some mat ∧ is_Some (map mat).
Proof.
  split; [vm_compute; reflexivity|]. split; [vm_compute; reflexivity|].
  split; [vm_compute; reflexivity|]. split.
  - exists "Data/Item/Weapon01.OZJ". by repeat split.
  - split; [vm_compute; reflexivity|]. split; [vm_compute; reflexivity|].
    eexists. split; [vm_compute; reflexivity|]. simpl. eauto.
Qed.

(** ** The loader: every run *)

Lemma in_bounds_read size e : in_bounds size e → read_in_bounds size e.
Proof. by destruct e. Qed.

Lemma ozjToPng_events ext buf k w :
  17 < size_of buf →
  ∃ evs, events (ozjToPng ext buf k w).1 = events w ++ evs
         ∧ Forall (read_in_bounds (size_of buf)) evs.
Proof.
  intros Hs. unfold ozjToPng.
  rewrite (bind_Return _ _ _ _ _ (view_getUint8_run buf 17 w ltac:(lia))).
  unfold try_catch, call_codec, bind, emit, ret, throw, console_log.
  destruct (sharp_toBuffer ext (slice_from buf k)); simpl.
  - destruct (sharp_metadata ext (slice_from buf k)); simpl;
      eexists; (split; [by rewrite <- !app_assoc|]);
      repeat constructor; simpl; lia.
  - eexists. split; [by rewrite <- !app_assoc|]. repeat constructor; simpl; lia.
Qed.

(** X1.  Whatever the buffer and whatever the outcome, a run of
    [convertOzjToBuffer] reads only bytes of the buffer: every read it
    performs, in the scan, in the header, at byte 17 or in the pixel data,
    lies between offset 0 and the length. *)
Theorem loader_never_reads_outside ext (buf : Buffer) (w : World) :
  ∃ evs, events (convertOzjToBuffer ext buf w).1 = events w ++ evs
         ∧ Forall (read_in_bounds (size_of buf)) evs.
Proof.
  destruct (sniff_run buf w) as (evs & Hrun & Hevs & _).
  assert (Hevs' : Forall (read_in_bounds (size_of buf)) evs)
    by (eapply Forall_impl; [exact Hevs | apply in_bounds_read]).
  unfold convertOzjToBuffer. unfold bind. rewrite Hrun.
  destruct (sniff_outcome buf) as [[k | nx ny] | e] eqn:Hout.
  - destruct (sniff_outcome_OZJ buf k Hout) as [Hk Hfit].
    destruct (ozjToPng_events ext buf k (add_events w evs) ltac:(lia)) as (evs' & -> & Hevs2).
    exists (evs ++ evs'). simpl. rewrite app_assoc. split; [done|].
    by apply Forall_app.
  - destruct (sniff_outcome_OZT buf nx ny Hout) as (-> & -> & Hv%looksLikeOzt_iff).
    destruct Hv as (_ & _ & Hw & Hh & _ & _ & _ & Hfit).
    destruct (oztToPng_run buf _ _ (add_events w evs) Hw Hh Hfit)
      as (evs' & rgba & -> & Hevs2 & _).
    exists (evs ++ evs'). simpl. rewrite app_assoc. split; [done|].
    apply Forall_app. split; [done|].
    eapply Forall_impl; [exact Hevs2 | apply in_bounds_read].
  - exists evs. by split.
Qed.

(** The outcome of [convertOzjToBuffer] by the outcome of the dispatch. *)
Lemma convert_OZT_result ext buf w nx ny :
  sniff_outcome buf = Return (OZT nx ny) →
  ∃ rgba, (convertOzjToBuffer ext buf w).2 = Return (mkBitmap rgba nx ny)
    ∧ size_of rgba = nx * ny * 4
    ∧ ∀ q c, 0 ≤ q < nx * ny → 0 ≤ c < 4 →
        at_index rgba (4 * q + c) = Some (byte_at buf (22 + 4 * q + bgra_source c)).
Proof.
  intros Hout.
  destruct (sniff_outcome_OZT buf nx ny Hout) as (-> & -> & Hv%looksLikeOzt_iff).
  destruct Hv as (_ & _ & Hw & Hh & _ & _ & _ & Hfit).
  destruct (sniff_run buf w) as (evs & Hrun & _). rewrite Hout in Hrun.
  destruct (oztToPng_run buf _ _ (add_events w evs) Hw Hh Hfit)
    as (evs' & rgba & Hdec & _ & Hlen & Hpix).
  exists rgba. unfold convertOzjToBuffer. rewrite (bind_Return _ _ _ _ _ Hrun).
  by rewrite Hdec.
Qed.

Lemma convert_Throw_result ext buf w e :
  sniff_outcome buf = Throw e → (convertOzjToBuffer ext buf w).2 = Throw e.
Proof.
  intros Hout. destruct (convert_failure ext buf w e Hout) as (evs & -> & _). done.
Qed.

(** X2.  [convertOzjToBuffer] fails in three ways only: 'File too small
    for OZT', 'Unsupported OZ? file', or 'Failed to decode JPEG: ' followed
    by the error of a codec call on the embedded stream.  In particular no
    [RangeError] of a [DataView] read and no raw codec error escapes, and
    the buffer of a failure of the first two kinds has no marker found by
    the scan. *)
Theorem loader_failure_kinds ext (buf : Buffer) (w : World) (e : exn) :
  (convertOzjToBuffer ext buf w).2 = Throw e →
  (e = Error "File too small for OZT" ∧ size_of buf < 22)
  ∨ (e = Error "Unsupported OZ? file" ∧ 22 ≤ size_of buf ∧ looksLikeOzt buf = false)
  ∨ (∃ k ce, sniff_outcome buf = Return (OZJ k)
       ∧ e = Error ("Failed to decode JPEG: " +:+ exn_to_string ce)
       ∧ (sharp_toBuffer ext (drop (Z.to_nat k) buf) = Throw ce
          ∨ sharp_metadata ext (drop (Z.to_nat k) buf) = Throw ce)).
Proof.
  intros Hthrow.
  destruct (sniff_outcome buf) as [[k | nx ny] | e'] eqn:Hout.
  - right. right. rewrite (convert_OZJ_result ext buf w k Hout) in Hthrow.
    unfold ozj_outcome in Hthrow. exists k.
    destruct (sharp_toBuffer ext (drop (Z.to_nat k) buf)) as [raw|ce] eqn:Hraw.
    + destruct (sharp_metadata ext (drop (Z.to_nat k) buf)) as [[wd ht]|ce] eqn:Hmeta;
        [discriminate|].
      injection Hthrow as <-. exists ce. auto.
    + injection Hthrow as <-. exists ce. auto.
  - destruct (convert_OZT_result ext buf w nx ny Hout) as (rgba & Hres & _).
    rewrite Hres in Hthrow. discriminate.
  - rewrite (convert_Throw_result ext buf w e' Hout) in Hthrow. injection Hthrow as ->.
    unfold sniff_outcome in Hout.
    destruct (negb _); [discriminate|].
    destruct (Z.ltb_spec (size_of buf) 22).
    + left. by injection Hout as <-.
    + right. left. destruct (looksLikeOzt buf); [discriminate|]. by injection Hout as <-.
Qed.

Lemma loader_failure_kinds_witness :
  (Error "File too small for OZT" = Error "File too small for OZT" ∧ size_of too_small < 22)
  ∨ (Error "File too small for OZT" = Error "Unsupported OZ? file"
     ∧ 22 ≤ size_of too_small ∧ looksLikeOzt too_small = false)
  ∨ (∃ k ce, sniff_outcome too_small = Return (OZJ k)
       ∧ Error "File too small for OZT"
         = Error ("Failed to decode JPEG: " +:+ exn_to_string ce)
       ∧ (sharp_toBuffer demo_ext (drop (Z.to_nat k) too_small) = Throw ce
          ∨ sharp_metadata demo_ext (drop (Z.to_nat k) too_small) = Throw ce)).
Proof.
  apply (loader_failure_kinds demo_ext too_small empty_world).
  vm_compute. reflexivity.
Defined.

Lemma at_index_from_drop buf buf' (n : nat) i :
  drop n buf = drop n buf' → Z.of_nat n ≤ i → at_index buf i = at_index buf' i.
Proof.
  intros Hd Hi. unfold at_index. destruct (Z.ltb_spec i 0); [done|].
  replace (Z.to_nat i) with (n + (Z.to_nat i - n))%nat by lia.
  by rewrite <- !lookup_drop, Hd.
Qed.

Lemma first_hit_agree buf buf' idx :
  (∀ i, 20 ≤ i → at_index buf i = at_index buf' i) →
  (∀ i, i ∈ idx → 20 ≤ i) →
  first_hit buf idx = first_hit buf' idx.
Proof.
  intros Hag. induction idx as [|i idx IH]; intros Hidx; [done|].
  rewrite !first_hit_cons.
  assert (20 ≤ i) by (apply Hidx; left).
  assert (Hm : marker_here buf i = marker_here buf' i).
  { unfold marker_here. by rewrite !Hag by lia. }
  rewrite Hm, IH; [done|]. intros j Hj. apply Hidx. by right.
Qed.

Lemma sniff_outcome_agree buf buf' :
  length buf = length buf' → drop 16 buf = drop 16 buf' →
  sniff_outcome buf = sniff_outcome buf'.
Proof.
  intros Hlen Hd.
  assert (Hag : ∀ i, 16 ≤ i → at_index buf i = at_index buf' i)
    by (intros i Hi; by apply (at_index_from_drop _ _ 16)).
  assert (Hsize : size_of buf = size_of buf') by (unfold size_of; by rewrite Hlen).
  unfold sniff_outcome, scan_window, looksLikeOzt, int16_at, byte_at.
  rewrite Hsize.
  rewrite (first_hit_agree buf buf');
    [|intros i Hi; apply Hag; lia | intros i Hi%elem_of_seqZ; lia].
  by rewrite !Hag by lia.
Qed.

Lemma buffer_eq_at_index (a b : Buffer) :
  (∀ i, at_index a i = at_index b i) → a = b.
Proof.
  intros H. apply list_eq. intros i. specialize (H (Z.of_nat i)).
  unfold at_index in H. destruct (Z.ltb_spec (Z.of_nat i) 0); [lia|].
  by rewrite Nat2Z.id in H.
Qed.

Lemma at_index_ge buf i : size_of buf ≤ i → at_index buf i = None.
Proof.
  unfold at_index, size_of. intros H. destruct (Z.ltb_spec i 0); [done|].
  apply lookup_ge_None. lia.
Qed.

Lemma bgra_source_range c : 0 ≤ c < 4 → 0 ≤ bgra_source c < 4.
Proof.
  intros Hc. unfold bgra_source.
  destruct (Z.eqb_spec c 0); [lia|]. destruct (Z.eqb_spec c 2); lia.
Qed.

(** X3.  The first 16 bytes of the file play no part: two buffers of the
    same length that agree from offset 16 on have the same outcome, for
    both containers and for every failure. *)
Theorem loader_ignores_first_16_bytes ext (buf buf' : Buffer) (w : World) :
  length buf = length buf' → drop 16 buf = drop 16 buf' →
  (convertOzjToBuffer ext buf w).2 = (convertOzjToBuffer ext buf' w).2.
Proof.
  intros Hlen Hd. pose proof (sniff_outcome_agree buf buf' Hlen Hd) as Hsniff.
  assert (Hag : ∀ i, 16 ≤ i → at_index buf i = at_index buf' i)
    by (intros i Hi; by apply (at_index_from_drop _ _ 16)).
  destruct (sniff_outcome buf) as [[k | nx ny] | e] eqn:Hout.
  - rewrite (convert_OZJ_result ext buf w k Hout).
    rewrite (convert_OZJ_result ext buf' w k (eq_sym Hsniff)).
    destruct (sniff_outcome_OZJ buf k Hout) as [Hk _].
    replace (Z.to_nat k) with (16 + (Z.to_nat k - 16))%nat by lia.
    by rewrite <- !drop_drop, Hd.
  - destruct (convert_OZT_result ext buf w nx ny Hout) as (rgba & -> & Hsz & Hpix).
    destruct (convert_OZT_result ext buf' w nx ny (eq_sym Hsniff)) as (rgba' & -> & Hsz' & Hpix').
    do 2 f_equal. apply buffer_eq_at_index. intros i.
    destruct (Z.lt_ge_cases i 0) as [Hneg|Hpos].
    { unfold at_index. by destruct (Z.ltb_spec i 0); [|lia]. }
    destruct (Z.lt_ge_cases i (nx * ny * 4)) as [Hin|Hout'].
    + assert (Hi : i = 4 * (i / 4) + i mod 4) by (apply Z.div_mod; lia).
      pose proof (Z.mod_pos_bound i 4 ltac:(lia)) as Hc.
      assert (Hq : 0 ≤ i / 4 < nx * ny).
      { split; [apply Z.div_pos; lia|]. apply Z.div_lt_upper_bound; lia. }
      rewrite (f_equal (at_index rgba) Hi), (f_equal (at_index rgba') Hi).
      rewrite Hpix, Hpix' by done. unfold byte_at. rewrite Hag; [done|].
      pose proof (bgra_source_range (i mod 4) Hc). lia.
    + rewrite !at_index_ge by lia. done.
  - rewrite (convert_Throw_result ext buf w e Hout).
    by rewrite (convert_Throw_result ext buf' w e (eq_sym Hsniff)).
Qed.

Lemma loader_ignores_first_16_bytes_witness :
  (convertOzjToBuffer demo_ext (ozt_header_2x1 (replicate 16 xff) x00 ++ two_quads)
     empty_world).2
  = (convertOzjToBuffer demo_ext example_ozt empty_world).2.
Proof.
  apply loader_ignores_first_16_bytes; reflexivity.
Defined.

Lemma first_hit_agree_on buf buf' idx :
  (∀ i d, i ∈ idx → 0 ≤ d ≤ 2 → at_index buf (i + d) = at_index buf' (i + d)) →
  first_hit buf idx = first_hit buf' idx.
Proof.
  induction idx as [|i idx IH]; intros Hag; [done|].
  rewrite !first_hit_cons.
  assert (Hm : marker_here buf i = marker_here buf' i).
  { unfold marker_here.
    pose proof (Hag i 0 ltac:(left) ltac:(lia)) as H0. rewrite Z.add_0_r in H0.
    by rewrite H0, (Hag i 1), (Hag i 2) by (left || lia). }
  rewrite Hm, IH; [done|]. intros j d Hj. apply Hag. by right.
Qed.

(** X4.  A valid OZT file of at least 32 bytes decodes to the same bitmap
    whatever bytes are appended to it: what follows the declared pixel data
    is never looked at.  (Below 32 bytes the scan window still grows with
    the file, so the property needs the bound.) *)
Theorem ozt_ignores_trailing_bytes ext (buf extra : Buffer) (w : World) (nx ny : Z) :
  (sniff buf w).2 = Return (OZT nx ny) → 32 ≤ size_of buf →
  (convertOzjToBuffer ext (buf ++ extra) w).2 = (convertOzjToBuffer ext buf w).2.
Proof.
  rewrite sniff_result. intros Hout Hsize.
  assert (Hag : ∀ i, i < size_of buf → at_index (buf ++ extra) i = at_index buf i).
  { intros i Hi. unfold at_index. destruct (Z.ltb_spec i 0); [done|].
    apply lookup_app_l. unfold size_of in Hi. lia. }
  assert (Hsz : size_of (buf ++ extra) = size_of buf + size_of extra)
    by (unfold size_of; rewrite length_app; lia).
  assert (Hextra : 0 ≤ size_of extra) by (unfold size_of; lia).
  destruct (sniff_outcome_OZT buf nx ny Hout) as (Hnx & Hny & Hlooks).
  pose proof Hlooks as Hv%looksLikeOzt_iff.
  destruct Hv as (_ & _ & Hw & Hh & _ & _ & _ & Hfit).
  assert (Hout' : sniff_outcome (buf ++ extra) = Return (OZT nx ny)).
  { revert Hout. unfold sniff_outcome, scan_window.
    rewrite !Z.min_l by lia.
    rewrite (first_hit_agree_on (buf ++ extra) buf);
      [|intros i d Hi%elem_of_seqZ Hd; apply Hag; lia].
    destruct (negb _); [done|].
    destruct (Z.ltb_spec (size_of buf) 22); [lia|].
    destruct (Z.ltb_spec (size_of (buf ++ extra)) 22); [lia|].
    assert (Hl : looksLikeOzt (buf ++ extra) = true).
    { revert Hlooks. unfold looksLikeOzt, int16_at, byte_at.
      rewrite !Hag by lia. rewrite !andb_true_iff, !Z.leb_le. lia. }
    rewrite Hl, Hlooks. unfold int16_at, byte_at. by rewrite !Hag by lia. }
  destruct (convert_OZT_result ext buf w nx ny Hout) as (rgba & -> & Hlen & Hpix).
  destruct (convert_OZT_result ext (buf ++ extra) w nx ny Hout') as (rgba' & -> & Hlen' & Hpix').
  do 2 f_equal. apply buffer_eq_at_index. intros i.
  destruct (Z.lt_ge_cases i 0) as [Hneg|Hpos].
  { unfold at_index. by destruct (Z.ltb_spec i 0); [|lia]. }
  destruct (Z.lt_ge_cases i (nx * ny * 4)) as [Hin|Hge].
  - assert (Hi : i = 4 * (i / 4) + i mod 4) by (apply Z.div_mod; lia).
    pose proof (Z.mod_pos_bound i 4 ltac:(lia)) as Hc.
    assert (Hq : 0 ≤ i / 4 < nx * ny).
    { split; [apply Z.div_pos; lia|]. apply Z.div_lt_upper_bound; lia. }
    rewrite (f_equal (at_index rgba) Hi), (f_equal (at_index rgba') Hi).
    rewrite Hpix, Hpix' by done. unfold byte_at. rewrite Hag; [done|].
    pose proof (bgra_source_range (i mod 4) Hc). subst nx ny. lia.
  - rewrite !at_index_ge by lia. done.
Qed.

Lemma ozt_ignores_trailing_bytes_witness :
  (convertOzjToBuffer demo_ext
     ((ozt_header_2x1 (replicate 16 x00) x00 ++ two_quads ++ [x00; x00]) ++ [xff; xd8; xff])
     empty_world).2
  = (convertOzjToBuffer demo_ext
       (ozt_header_2x1 (replicate 16 x00) x00 ++ two_quads ++ [x00; x00]) empty_world).2.
Proof.
  apply (ozt_ignores_trailing_bytes demo_ext _ _ empty_world 2 1).
  - vm_compute. reflexivity.
  - vm_compute. discriminate.
Defined.

(** ** The equivalence of extensions: every pair *)

Lemma assoc_in_table a l :
  assoc a equivExt_table = Some l →
  a ∈ table_extensions ∧ ∀ x, x ∈ l → x ∈ table_extensions.
Proof.
  unfold equivExt_table, table_extensions. simpl.
  repeat match goal with
  | |- context [String.eqb a ?s] =>
      destruct (String.eqb_spec a s) as [->|_];
      [intros [= <-]; split;
         [apply mem_string_iff; reflexivity
         |intros x Hx;
          repeat (apply elem_of_cons in Hx as [-> | Hx];
                  [apply mem_string_iff; reflexivity|]);
          by apply elem_of_nil in Hx]|]
  end.
  discriminate.
Qed.

Lemma table_not_prototype x :
  x ∈ table_extensions →
  (x ∉ object_prototype_keys) ∧ is_Some (assoc x equivExt_table).
Proof.
  unfold table_extensions. intros H.
  repeat (apply elem_of_cons in H as [-> | H];
          [split; [intros Hin%mem_string_iff; discriminate Hin | eexists; reflexivity]|]).
  by apply elem_of_nil in H.
Qed.

Lemma prototype_not_in_table x :
  x ∈ object_prototype_keys → assoc x equivExt_table = None.
Proof.
  intros Hx. destruct (assoc x equivExt_table) as [l|] eqn:E; [|done].
  destruct (assoc_in_table x l E) as [Hin _].
  by destruct (table_not_prototype x Hin).
Qed.

Lemma equivExt_prototype x : x ∈ object_prototype_keys → equivExt x = Inherited.
Proof.
  intros Hx. unfold equivExt. rewrite (prototype_not_in_table x Hx).
  apply mem_string_iff in Hx. by rewrite Hx.
Qed.

Lemma matches_sym a b : matches a b → matches b a.
Proof. unfold matches. intros [-> | [H | H]]; auto. Qed.

(** X5.  The outcome of [extMatch] for every pair of strings: a
    [TypeError] exactly when the two differ and one of them names a
    property of [Object.prototype]; otherwise a boolean, true exactly when
    the two are equal or one is listed among the equivalents of the
    other. *)
Theorem extMatch_every_pair (a b : string) :
  (a ≠ b ∧ (a ∈ object_prototype_keys ∨ b ∈ object_prototype_keys)
   ∧ extMatch a b = Throw (TypeError "equivExt[...]?.includes is not a function"))
  ∨ (¬ (a ≠ b ∧ (a ∈ object_prototype_keys ∨ b ∈ object_prototype_keys))
     ∧ ∃ r, extMatch a b = Return r ∧ (r = true ↔ matches a b)).
Proof.
  destruct (String.eqb_spec a b) as [->|Hne].
  { right. split; [tauto|]. exists true. rewrite extMatch_refl.
    split; [done|]. split; [by left | done]. }
  destruct (decide (a ∈ object_prototype_keys)) as [Ha|Ha].
  { left. split; [done|]. split; [by left|].
    unfold extMatch. destruct (String.eqb_spec a b); [done|].
    by rewrite (equivExt_prototype a Ha). }
  destruct (decide (b ∈ object_prototype_keys)) as [Hb|Hb].
  - left. split; [done|]. split; [by right|].
    unfold extMatch. destruct (String.eqb_spec a b); [done|].
    rewrite opt_includes_own by done.
    assert (Hfalsy : truthy (option_map (mem_string b) (assoc a equivExt_table)) = false).
    { destruct (truthy _) eqn:E; [|done].
      apply truthy_includes in E. unfold equivalents in E.
      destruct (assoc a equivExt_table) as [l|] eqn:El; [|by apply elem_of_nil in E].
      destruct (assoc_in_table a l El) as [_ Hl].
      by destruct (table_not_prototype b (Hl b E)). }
    rewrite Hfalsy. by rewrite (equivExt_prototype b Hb).
  - right. split; [tauto|]. by apply extMatch_matches.
Qed.

(** X6.  [extMatch] is symmetric in its two arguments, failures included,
    although the table is not (png is listed for tga, tga is not listed
    for png); and it is not transitive: jpg goes with ozj and ozj with png,
    jpg does not go with png. *)
Theorem extMatch_symmetric_not_transitive :
  (∀ a b, extMatch a b = extMatch b a)
  ∧ ("png" ∈ equivalents "tga" ∧ ("tga" ∉ equivalents "png")
     ∧ extMatch "png" "tga" = Return true)
  ∧ (extMatch "jpg" "ozj" = Return true ∧ extMatch "ozj" "png" = Return true
     ∧ extMatch "jpg" "png" = Return false).
Proof.
  split; [|split; [split; [|split] | by repeat split]].
  - intros a b.
    destruct (extMatch_every_pair a b) as [(Hne & Hp & ->) | (Hn & r & -> & Hr)];
      destruct (extMatch_every_pair b a) as [(Hne' & Hp' & ->) | (Hn' & r' & -> & Hr')].
    + done.
    + exfalso. apply Hn'. split; [congruence | tauto].
    + exfalso. apply Hn. split; [congruence | tauto].
    + f_equal. destruct r, r'; try done.
      * assert (Hm : matches b a) by (apply matches_sym; by apply Hr).
        apply Hr' in Hm. discriminate Hm.
      * assert (Hm : matches a b) by (apply matches_sym; by apply Hr').
        apply Hr in Hm. discriminate Hm.
  - change (equivalents "tga") with ["ozt"; "png"]. set_solver.
  - change (equivalents "png") with ["ozj"; "ozt"].
    intros H. apply mem_string_iff in H. discriminate H.
  - reflexivity.
Qed.

(** ** Names and extensions *)







(** ** A bind and the console *)

Lemma quiet_ret {A} (a : A) : quiet (ret a).
Proof. intros w w' a' [= <- _]. done. Qed.

Lemma quiet_throw {A} e : quiet (@throw A e).
Proof. intros w w' a H. discriminate H. Qed.

Lemma quiet_emit e : quiet (emit e).
Proof. intros w w' a [= <- _]. done. Qed.

Lemma quiet_lift {A} (r : outcome A) : quiet (lift r).
Proof. destruct r; [apply quiet_ret | apply quiet_throw]. Qed.

Lemma quiet_bind {A B} (m : M A) (k : A → M B) :
  quiet m → (∀ a, quiet (k a)) → quiet (bind m k).
Proof.
  intros Hm Hk w w' b Hrun. apply bind_inv_Return in Hrun as (w1 & a & H1 & H2).
  rewrite (Hk a _ _ _ H2). by apply (Hm _ _ _ H1).
Qed.

Lemma quiet_for_each {A S} (xs : list A) (body : A → S → M S) s :
  (∀ x s, quiet (body x s)) → quiet (for_each xs body s).
Proof.
  intros Hbody. revert s. induction xs as [|x xs IH]; intros s; simpl.
  - apply quiet_ret.
  - apply quiet_bind; [apply Hbody | intros s'; apply IH].
Qed.

Lemma quiet_call_codec {A} op input (r : outcome A) : quiet (call_codec op input r).
Proof.
  unfold call_codec. apply quiet_bind; [apply quiet_emit|].
  intros _. destruct r; [apply quiet_ret | apply quiet_throw].
Qed.

Ltac quiet :=
  repeat first
    [ apply quiet_ret | apply quiet_throw | apply quiet_emit
    | apply quiet_lift | apply quiet_call_codec
    | apply quiet_bind; [|intros ?]
    | apply quiet_for_each; intros ? ?
    | match goal with
      | |- quiet (if ?c then _ else _) => destruct c
      | |- quiet (match ?x with _ => _ end) => destruct x
      end ].








(** ** Binds that fail, binds that return *)

Section RebindingReturns.

Context {A S : Type} (sel : A → bool) (idof : A → nat)
        (f : Material → Material) (hit : S → S) (body : A → S → M S).
Hypothesis Hbody : binds_with sel idof f hit body.

Lemma rebind_returns xs : ∀ s w,
  (∀ x, x ∈ xs → sel x = true → is_Some (materials w !! idof x)) →
  ∃ w' r, for_each xs body s w = (w', Return r)
    ∧ ∀ id, is_Some (materials w !! id) → is_Some (materials w' !! id).
Proof.
  induction xs as [|x xs IH]; intros s w Hpres; [by exists w, s|].
  simpl for_each. destruct (Hbody x s w) as (Hskip & _ & Hsome).
  destruct (sel x) eqn:Hsel.
  - destruct (Hpres x ltac:(left) Hsel) as [mat Hmat].
    destruct (Hsome eq_refl mat Hmat) as (w1 & Hstep & Hnew & Hother & _).
    rewrite (bind_Return _ _ _ _ _ Hstep).
    assert (Hkeep : ∀ id, is_Some (materials w !! id) → is_Some (materials w1 !! id)).
    { intros id Hid. destruct (decide (id = idof x)) as [->|Hne].
      - by rewrite Hnew.
      - by rewrite Hother. }
    destruct (IH (hit s) w1) as (w' & r & Hrun & Hkeep').
    { intros y Hy Hsy. apply Hkeep. apply Hpres; [by right | done]. }
    exists w', r. split; [done|]. intros id Hid. by apply Hkeep', Hkeep.
  - rewrite (bind_Return _ _ _ _ _ (Hskip eq_refl)).
    apply IH. intros y Hy. apply Hpres. by right.
Qed.

End RebindingReturns.

Lemma collect_throw fb fe objs : ∀ acc w e,
  (for_each objs (collect_mesh fb fe) acc w).2 = Throw e →
  ∃ obj p, obj ∈ objs ∧ tagged obj = Some p
           ∧ extMatch (normalizeWanted p).2 fe = Throw e.
Proof.
  induction objs as [|obj objs IH]; intros acc w e; [discriminate|].
  simpl for_each. unfold bind.
  destruct (collect_mesh fb fe obj acc w) as [w1 [acc1|e1]] eqn:Hstep; cbn [snd].
  - intros Hrest. destruct (IH _ _ _ Hrest) as (o & p & Ho & Hp & Hm).
    exists o, p. split; [by right | done].
  - intros [= <-]. unfold collect_mesh in Hstep.
    destruct (tagged obj) as [p|] eqn:Ht; [|discriminate].
    exists obj, p. split; [left|]. split; [done|].
    destruct (normalizeWanted p) as [wb we]. cbn [snd].
    unfold bind, lift, ret, throw in Hstep.
    destruct (extMatch we fe); simpl in Hstep; congruence.
Qed.

(** X9.  A bind fails as a whole or not at all: when every accepting mesh
    has a material object, a bind that throws has changed no material, and
    it throws either the error of reading and decoding the file or the
    [TypeError] of an extension lookup for some tagged mesh. *)
Theorem bind_failure_changes_nothing ext (group : Object3D) (file : string)
    (w : World) (e : exn) :
  (∀ obj, obj ∈ traverse group →
     accepts (file_base ext file) (file_ext ext file) obj →
     is_Some (materials w !! material obj)) →
  (loadAndApplyTexture ext group file w).2 = Throw e →
  materials (loadAndApplyTexture ext group file w).1 = materials w
  ∧ ((load_texture ext file w).2 = Throw e
     ∨ ∃ obj p, obj ∈ traverse group ∧ tagged obj = Some p
                ∧ extMatch (normalizeWanted p).2 (file_ext ext file) = Throw e).
Proof.
  intros Hpres. rewrite loadAndApplyTexture_unfold. unfold bind.
  pose proof (kept_load_texture ext file w) as Hkept.
  destruct (load_texture ext file w) as [w1 [tex|e1]]; simpl in Hkept.
  2:{ cbn [fst snd]. intros [= <-]. split; [done | by left]. }
  pose proof (collect_throw (file_base ext file) (file_ext ext file) (traverse group) [] w1)
    as Hcause.
  destruct (collect_run (file_base ext file) (file_ext ext file) (traverse group) [] w1)
    as (r & Hr & Hspec).
  rewrite Hr in Hcause |- *. destruct r as [ml|e2].
  2:{ cbn [fst snd]. intros [= <-]. split; [done|]. right. by apply Hcause. }
  destruct (Hspec ml eq_refl) as (new & Hml & Hsound & _). simpl in Hml. subst new.
  destruct (rebind_returns _ _ _ _ _ (apply_body_binds (file_ext ext file) tex)
              ml false w1) as (w2 & applied & Happly & _).
  { intros m Hm Him. destruct (Hsound m Hm) as [Hin Hacc].
    rewrite Hkept. apply Hpres; [done | by apply Hacc]. }
  rewrite Happly. destruct applied; cbn; discriminate.
Qed.

Lemma bind_failure_changes_nothing_witness :
  materials (loadAndApplyTexture demo_ext weapon_group "tex/broken.ozt" (world_of 2)).1
    = materials (world_of 2)
  ∧ ((load_texture demo_ext "tex/broken.ozt" (world_of 2)).2
       = Throw (Error "File too small for OZT")
     ∨ ∃ obj p, obj ∈ traverse weapon_group ∧ tagged obj = Some p
         ∧ extMatch (normalizeWanted p).2 (file_ext demo_ext "tex/broken.ozt")
           = Throw (Error "File too small for OZT")).
Proof.
  apply bind_failure_changes_nothing.
  - intros obj Hin _.
    apply elem_of_cons in Hin as [-> | Hin]; [by eexists|].
    apply elem_of_cons in Hin as [-> | Hin]; [by eexists|].
    apply elem_of_cons in Hin as [-> | Hin]; [by eexists|].
    by apply elem_of_nil in Hin.
  - vm_compute. reflexivity.
Defined.

(** X10.  [loadAndApplyTextures] returns for every candidate set whose
    entries all hold at least one path, whatever fails inside: a file that
    is missing or does not decode, a mesh without material.  The only
    exception that leaves it is the [TypeError] for an entry with an empty
    list of paths. *)
Theorem loadAndApplyTextures_returns_iff ext (group : Object3D)
    (foundTextures : FoundTextures) (w : World) :
  (loadAndApplyTextures ext group foundTextures w).2 = Return tt
  ↔ ∀ entry, entry ∈ foundTextures → entry.2 ≠ [].
Proof.
  unfold loadAndApplyTextures. revert w.
  induction foundTextures as [|[name paths] found IH]; intros w.
  - split; [intros _ entry Hin; by apply elem_of_nil in Hin | done].
  - simpl for_each. unfold bind at 1. destruct paths as [|p rest]; simpl.
    + split; [discriminate|]. intros H. by destruct (H (name, []) ltac:(left)).
    + unfold bind at 1. unfold ret at 1. unfold try_catch.
      destruct (bind (load_texture_plain ext p _) _ w) as [w1 [[]|e]].
      * rewrite IH. split.
        -- intros H entry Hin. apply elem_of_cons in Hin as [-> | Hin]; [done | by apply H].
        -- intros H entry Hin. apply H. by right.
      * unfold console_log at 1. rewrite IH. split.
        -- intros H entry Hin. apply elem_of_cons in Hin as [-> | Hin]; [done | by apply H].
        -- intros H entry Hin. apply H. by right.
Qed.

(** ** The job that completes *)

Lemma blind_ret {A} (a : A) : blind (ret a).
Proof. by intros w w'. Qed.

Lemma blind_throw {A} e : blind (@throw A e).
Proof. by intros w w'. Qed.

Lemma blind_emit e : blind (emit e).
Proof. by intros w w'. Qed.

Lemma blind_console_log s : blind (console_log s).
Proof. by intros w w'. Qed.

Lemma blind_lift {A} (r : outcome A) : blind (lift r).
Proof. destruct r; [apply blind_ret | apply blind_throw]. Qed.

Lemma blind_bind {A B} (m : M A) (k : A → M B) :
  blind m → (∀ a, blind (k a)) → blind (bind m k).
Proof.
  intros Hm Hk w w'. unfold bind. specialize (Hm w w').
  destruct (m w) as [w1 [a|e]], (m w') as [w1' [a'|e']]; simpl in Hm; try done.
  - injection Hm as <-. apply Hk.
  - by injection Hm as <-.
Qed.

Lemma blind_try_catch {A} (m : M A) (h : exn → M A) :
  blind m → (∀ e, blind (h e)) → blind (try_catch m h).
Proof.
  intros Hm Hh w w'. unfold try_catch. specialize (Hm w w').
  destruct (m w) as [w1 [a|e]], (m w') as [w1' [a'|e']]; simpl in Hm; try done.
  injection Hm as <-. apply Hh.
Qed.

Lemma blind_for_each {A S} (xs : list A) (body : A → S → M S) s :
  (∀ x s, blind (body x s)) → blind (for_each xs body s).
Proof.
  intros Hbody. revert s. induction xs as [|x xs IH]; intros s; simpl.
  - apply blind_ret.
  - apply blind_bind; [apply Hbody | intros s'; apply IH].
Qed.

Lemma blind_call_codec {A} op input (r : outcome A) : blind (call_codec op input r).
Proof.
  unfold call_codec. apply blind_bind; [apply blind_emit|].
  intros _. destruct r; [apply blind_ret | apply blind_throw].
Qed.

Ltac blind :=
  repeat first
    [ apply blind_ret | apply blind_throw | apply blind_emit | apply blind_console_log
    | apply blind_lift | apply blind_call_codec
    | apply blind_bind; [|intros ?] | apply blind_try_catch; [|intros ?]
    | apply blind_for_each; intros ? ?
    | match goal with
      | |- blind (if ?c then _ else _) => destruct c
      | |- blind (match ?x with _ => _ end) => destruct x
      end ].

Lemma blind_scan_marker buf idx : blind (scan_marker buf idx).
Proof.
  induction idx as [|i idx IH]; simpl; [apply blind_ret|].
  unfold u8_get. blind. exact IH.
Qed.

Lemma blind_convertOzjToBuffer ext buf : blind (convertOzjToBuffer ext buf).
Proof.
  unfold convertOzjToBuffer. apply blind_bind.
  - unfold sniff. apply blind_bind; [apply blind_scan_marker|]. intros k.
    unfold view_getInt16, view_getUint8. blind.
  - intros [k | nx ny].
    + unfold ozjToPng, view_getUint8. blind.
    + unfold oztToPng, ozt_row, ozt_pixel, u8_get. blind.
Qed.

Lemma blind_load_texture ext file : blind (load_texture ext file).
Proof.
  unfold load_texture, convertTgaToDataUrl, convertOzjToDataUrl, convertTgaToBuffer,
    png_data_url.
  apply blind_bind; [apply blind_lift|]. intros buf.
  apply blind_bind; [|intros ?; apply blind_ret].
  repeat match goal with
  | |- blind (if ?c then _ else _) => destruct c
  end;
  repeat first
    [ apply blind_convertOzjToBuffer
    | apply blind_ret | apply blind_call_codec
    | apply blind_bind; [|intros ?] ].
Qed.

(** A bind returns when the file decodes, no extension lookup throws and
    the accepting meshes have materials; the materials that exist stay. *)
Lemma loadAndApplyTexture_returns ext group file w tex :
  (load_texture ext file w).2 = Return tex →
  (∀ obj p, obj ∈ traverse group → tagged obj = Some p →
     ∃ b, extMatch (normalizeWanted p).2 (file_ext ext file) = Return b) →
  (∀ obj, obj ∈ traverse group → is_Some (tagged obj) →
     is_Some (materials w !! material obj)) →
  ∃ w', loadAndApplyTexture ext group file w = (w', Return tt)
    ∧ ∀ id, is_Some (materials w !! id) → is_Some (materials w' !! id).
Proof.
  intros Hload Htot Hpres. rewrite loadAndApplyTexture_unfold.
  pose proof (kept_load_texture ext file w) as Hkept.
  destruct (load_texture ext file w) as [w1 r] eqn:Hl. simpl in Hload, Hkept. subst r.
  rewrite (bind_Return _ _ _ _ _ Hl).
  destruct (collect_total (file_base ext file) (file_ext ext file) (traverse group) [] w1 Htot)
    as (ml & Hcollect).
  rewrite (bind_Return _ _ _ _ _ Hcollect).
  destruct (collect_run (file_base ext file) (file_ext ext file) (traverse group) [] w1)
    as (r & Hr & Hspec).
  rewrite Hr in Hcollect. injection Hcollect as ->.
  destruct (Hspec ml eq_refl) as (new & Hml & Hsound & _). simpl in Hml. subst new.
  destruct (rebind_returns _ _ _ _ _ (apply_body_binds (file_ext ext file) tex)
              ml false w1) as (w2 & applied & Happly & Hkeep).
  { intros m Hm Him. destruct (Hsound m Hm) as [Hin Hacc].
    rewrite Hkept. apply Hpres; [done|]. eapply accepts_is_tagged. by apply Hacc. }
  rewrite (bind_Return _ _ _ _ _ Happly).
  destruct applied; simpl.
  - exists w2. split; [done|]. intros id Hid. apply Hkeep. by rewrite Hkept.
  - eexists. split; [reflexivity|]. simpl. intros id Hid. apply Hkeep. by rewrite Hkept.
Qed.

(** X11.  The job of [convertBmdToGlb] runs to its end when every entry
    of the candidate set has a first file that reads and decodes, no
    extension of a mesh tag or of such a file names a property of
    [Object.prototype], and every tagged mesh has a material object.  A
    file that no mesh accepts does not stop it. *)
Theorem job_completes ext (group : Object3D) (foundTextures : FoundTextures)
    (w : World) :
  (∀ entry, entry ∈ foundTextures →
     ∃ file rest tex, entry.2 = file :: rest
       ∧ (load_texture ext file w).2 = Return tex
       ∧ (file_ext ext file ∉ object_prototype_keys)) →
  (∀ obj p, obj ∈ traverse group → tagged obj = Some p →
     (normalizeWanted p).2 ∉ object_prototype_keys) →
  (∀ obj, obj ∈ traverse group → is_Some (tagged obj) →
     is_Some (materials w !! material obj)) →
  (convertBmdToGlb ext group foundTextures w).2 = Return tt.
Proof.
  intros Hfiles Hexts Hpres. unfold convertBmdToGlb.
  destruct (0 <? length foundTextures)%nat; [|done].
  revert w Hfiles Hpres.
  induction foundTextures as [|[name paths] found IH]; intros w Hfiles Hpres; [done|].
  simpl for_each.
  destruct (Hfiles (name, paths) ltac:(left)) as (file & rest & tex & Hp & Hload & Hfe).
  simpl in Hp. subst paths.
  simpl. unfold bind at 1. unfold bind at 1. unfold ret at 1.
  destruct (loadAndApplyTexture_returns ext group file w tex Hload) as (w1 & Hrun & Hkeep).
  { intros obj p Hobj Htag.
    destruct (extMatch_matches (normalizeWanted p).2 (file_ext ext file)) as (b & Hb & _);
      [by eapply Hexts | done | by exists b]. }
  { done. }
  rewrite Hrun. apply IH.
  - intros entry Hin. destruct (Hfiles entry ltac:(by right))
      as (file' & rest' & tex' & Hp & Hload' & Hfe').
    exists file', rest', tex'. split; [done|]. split; [|done].
    by rewrite (blind_load_texture ext file' w1 w).
  - intros obj Hobj Htag. by apply Hkeep, Hpres.
Qed.

Lemma job_completes_witness :
  (convertBmdToGlb demo_ext a_group a_found (world_of 1)).2 = Return tt.
Proof.
  apply job_completes.
  - intros entry Hin. apply list_elem_of_singleton in Hin. subst entry.
    exists "tex/a.tga", ["tex/a.jpg"]. eexists. split; [reflexivity|].
    split; [vm_compute; reflexivity|].
    intros H%mem_string_iff. discriminate H.
  - intros obj p Hin Htag H%mem_string_iff.
    apply elem_of_cons in Hin as [-> | Hin]; [discriminate|].
    apply elem_of_cons in Hin as [-> | Hin]; [|by apply elem_of_nil in Hin].
    injection Htag as <-. discriminate H.
  - intros obj Hin Htag.
    apply elem_of_cons in Hin as [-> | Hin]; [by destruct Htag|].
    apply elem_of_cons in Hin as [-> | Hin]; [by eexists | by apply elem_of_nil in Hin].
Defined.

(** ** [searchTextures] *)

Lemma Dirent_induction (P : Dirent → Prop) :
  (∀ name, P (FileEntry name)) →
  (∀ name, P (DirEntry name None)) →
  (∀ name es, Forall P es → P (DirEntry name (Some es))) →
  (∀ name, P (OtherEntry name)) →
  ∀ e, P e.
Proof.
  intros Hf Hn Hs Ho. fix IH 1.
  intros [name | name [es|] | name]; [apply Hf | | apply Hn | apply Ho].
  apply Hs. induction es as [|e es IHes]; constructor; [apply IH | apply IHes].
Qed.

Lemma search_entry_dir ext join rn depth dirPath name listing found :
  search_entry ext join rn depth dirPath (DirEntry name listing) found
  = Return (searchDir ext join rn (depth + 1) (join dirPath name) listing found).
Proof.
  simpl. unfold searchDir. f_equal.
  destruct (3 <? depth + 1)%nat; [done|]. destruct listing as [es|]; [|done].
  revert found. induction es as [|e es IH]; intros found; simpl; [done|].
  destruct (search_entry ext join rn (depth + 1) (join dirPath name) e found); [apply IH | done].
Qed.

Lemma visible_entry_dir limit join depth dirPath name listing :
  visible_entry limit join depth dirPath (DirEntry name listing)
  = visible_files limit join (depth + 1) (join dirPath name) listing.
Proof.
  simpl. unfold visible_files.
  destruct (limit <? depth + 1)%nat; [done|]. destruct listing as [es|]; [|done].
  induction es as [|e es IH]; simpl; [done|]. by rewrite IH.
Qed.

Lemma wanted_key_required ext rn name k :
  wanted_key ext rn name = Some k → k ∈ rn.
Proof.
  unfold wanted_key. destruct (mem_string _ validExtensions); [|discriminate].
  destruct (mem_string _ rn) eqn:E; [|discriminate].
  intros [= <-]. by apply mem_string_iff.
Qed.

Lemma search_entry_file ext join rn depth dirPath name found :
  search_entry ext join rn depth dirPath (FileEntry name) found
  = match wanted_key ext rn name with
    | Some k => found_push found k (join dirPath name)
    | None => Return found
    end.
Proof.
  cbn [search_entry]. unfold wanted_key.
  destruct (mem_string _ validExtensions); [|done].
  by destruct (mem_string _ rn).
Qed.

(** The three outcomes of the two lines that file a path. *)
Lemma found_push_cases found k p :
  match found !! k with
  | Some l => found_push found k p = Return (<[k := l ++ [p]]> found)
  | None =>
      if mem_string k object_prototype_keys
      then ∃ e, found_push found k p = Throw e
      else found_push found k p = Return (<[k := [p]]> found)
  end.
Proof.
  unfold found_push, found_get. destruct (found !! k) as [l|] eqn:E.
  - by rewrite E.
  - destruct (mem_string k object_prototype_keys) eqn:Hp; cbn zeta.
    + rewrite ?E, ?Hp. eauto.
    + rewrite lookup_insert_eq. by rewrite insert_insert_eq.
Qed.

Lemma paths_for_mono ext join rn k files files' p :
  (∀ f, f ∈ files → f ∈ files') →
  p ∈ paths_for ext join rn k files → p ∈ paths_for ext join rn k files'.
Proof.
  unfold paths_for. intros Hsub Hp.
  apply list_elem_of_In, in_map_iff in Hp as (f & <- & Hf%filter_In).
  destruct Hf as [Hin%list_elem_of_In Hb].
  apply list_elem_of_In, in_map_iff. exists f. split; [done|].
  apply filter_In. split; [by apply list_elem_of_In, Hsub | done].
Qed.

Lemma found_push_ok ext join rn files found found' d n k :
  found_ok ext join rn files found →
  (d, n) ∈ files → wanted_key ext rn n = Some k →
  found_push found k (join d n) = Return found' →
  found_ok ext join rn files found'.
Proof.
  intros Hok Hin Hk Hpush.
  assert (Hp : join d n ∈ paths_for ext join rn k files).
  { unfold paths_for. apply list_elem_of_In, in_map_iff. exists (d, n). split; [done|].
    apply filter_In. split; [by apply list_elem_of_In|]. simpl. by apply bool_decide_eq_true. }
  pose proof (found_push_cases found k (join d n)) as Hcases.
  destruct (found !! k) as [l|] eqn:E.
  - rewrite Hcases in Hpush. injection Hpush as <-.
    destruct (Hok k l E) as (Hreq & Hnp & Hne & Hl).
    intros k' l' Hl'. destruct (decide (k' = k)) as [->|Hneq].
    + rewrite lookup_insert_eq in Hl'. injection Hl' as <-.
      split; [done|]. split; [done|]. split; [by destruct l|].
      intros p [Hp'|Hp']%elem_of_app; [by apply Hl|].
      apply list_elem_of_singleton in Hp'. by subst p.
    + rewrite lookup_insert_ne in Hl' by done. by apply Hok.
  - destruct (mem_string k object_prototype_keys) eqn:Hproto.
    + destruct Hcases as (e & He). congruence.
    + rewrite Hcases in Hpush. injection Hpush as <-.
      intros k' l' Hl'. destruct (decide (k' = k)) as [->|Hneq].
      * rewrite lookup_insert_eq in Hl'. injection Hl' as <-.
        split; [by eapply wanted_key_required|].
        split; [intros Hc%mem_string_iff; congruence|]. split; [done|].
        intros p Hp'%list_elem_of_singleton. by subst p.
      * rewrite lookup_insert_ne in Hl' by done. by apply Hok.
Qed.

Lemma search_entry_ok ext join rn files : ∀ e depth dirPath found,
  found_ok ext join rn files found →
  (∀ f, f ∈ visible_entry 3 join depth dirPath e → f ∈ files) →
  ∀ found', search_entry ext join rn depth dirPath e found = Return found' →
  found_ok ext join rn files found'.
Proof.
  intros e. induction e as [name | name | name es IH | name] using Dirent_induction;
    intros depth dirPath found Hok Hvis found'.
  - rewrite search_entry_file.
    destruct (wanted_key ext rn name) as [k|] eqn:Hk; [|by intros [= <-]].
    apply (found_push_ok ext join rn files found found' dirPath name k); [done| |done].
    apply Hvis. left.
  - rewrite search_entry_dir. unfold searchDir.
    destruct (3 <? depth + 1)%nat; by intros [= <-].
  - rewrite search_entry_dir. rewrite visible_entry_dir in Hvis.
    unfold searchDir, visible_files in *.
    destruct (3 <? depth + 1)%nat; [by intros [= <-]|].
    intros [= <-]. revert found Hok Hvis.
    induction IH as [|e es He _ IHes]; intros found Hok Hvis; simpl; [done|].
    simpl in Hvis.
    destruct (search_entry ext join rn (depth + 1) (join dirPath name) e found)
      as [found1|err] eqn:Hstep; [|done].
    apply IHes.
    + apply (He (depth + 1)%nat (join dirPath name) found); [done| |done].
      intros f Hf. apply Hvis, elem_of_app. by left.
    + intros f Hf. apply Hvis, elem_of_app. by right.
  - by intros [= <-].
Qed.

(** X12.  Whatever the directory tree and the texture names, every entry
    of the object returned by [searchTextures] is filed under the base name
    of a required texture, holds at least one path, and holds only paths
    of files that the search can see (at most three directories down, in
    readable directories) whose extension is one of the six and whose base
    name is the key. *)
Theorem searchTextures_entries ext join (startPath : string)
    (listing : option (list Dirent)) (requiredTextures : list string)
    (k : string) (l : list string) :
  searchTextures ext join startPath listing requiredTextures !! k = Some l →
  k ∈ List.map (wanted_base ext) requiredTextures
  ∧ (k ∉ object_prototype_keys)
  ∧ l ≠ []
  ∧ ∀ p, p ∈ l →
      ∃ d n, (d, n) ∈ visible_files 3 join 0 startPath listing
        ∧ p = join d n
        ∧ mem_string (path_extname ext (toLowerCase n)) validExtensions = true
        ∧ path_basename_suffix ext (toLowerCase n) (path_extname ext (toLowerCase n)) = k.
Proof.
  unfold searchTextures. set (rn := List.map (wanted_base ext) requiredTextures).
  intros Hl.
  assert (Hok : found_ok ext join rn (visible_files 3 join 0 startPath listing)
                  (searchDir ext join rn 0 startPath listing ∅)).
  { clear Hl. unfold searchDir, visible_files. simpl.
    destruct listing as [es|]; [|intros k' l' H'; by rewrite lookup_empty in H'].
    assert (Hempty : found_ok ext join rn (flat_map (visible_entry 3 join 0 startPath) es) ∅)
      by (intros k' l' H'; by rewrite lookup_empty in H').
    revert Hempty. generalize (∅ : gmap string (list string)).
    assert (Hsub : ∀ f, f ∈ flat_map (visible_entry 3 join 0 startPath) es
                        → f ∈ flat_map (visible_entry 3 join 0 startPath) es) by done.
    revert Hsub. generalize (flat_map (visible_entry 3 join 0 startPath) es) at 2 3 4.
    intros files. induction es as [|e es IH]; intros Hsub found Hok; simpl; [done|].
    simpl in Hsub.
    destruct (search_entry ext join rn 0 startPath e found) as [found1|err] eqn:Hstep; [|done].
    apply IH.
    - intros f Hf. apply Hsub, elem_of_app. by right.
    - apply (search_entry_ok ext join rn files e 0%nat startPath found); [done| |done].
      intros f Hf. apply Hsub, elem_of_app. by left. }
  destruct (Hok k l Hl) as (Hreq & Hnp & Hne & Hpaths).
  split; [done|]. split; [done|]. split; [done|].
  intros p Hp. specialize (Hpaths p Hp). unfold paths_for in Hpaths.
  apply list_elem_of_In, in_map_iff in Hpaths as ([d n] & <- & Hf%filter_In).
  destruct Hf as [Hin%list_elem_of_In Hb]. simpl in Hb.
  apply bool_decide_eq_true in Hb. exists d, n. split; [done|]. split; [done|].
  unfold wanted_key in Hb.
  destruct (mem_string _ validExtensions); [|discriminate].
  destruct (mem_string _ rn); [|discriminate]. by injection Hb as <-.
Qed.

Lemma searchTextures_entries_witness :
  "wing" ∈ List.map (wanted_base demo_ext) ["Data/wing.tga"]
  ∧ ("wing" ∉ object_prototype_keys)
  ∧ ["tex/Wing.OZT"; "tex/sub/wing.tga"] ≠ []
  ∧ ∀ p, p ∈ ["tex/Wing.OZT"; "tex/sub/wing.tga"] →
      ∃ d n, (d, n) ∈ visible_files 3 demo_join 0 "tex" (Some demo_tree)
        ∧ p = demo_join d n
        ∧ mem_string (path_extname demo_ext (toLowerCase n)) validExtensions = true
        ∧ path_basename_suffix demo_ext (toLowerCase n)
            (path_extname demo_ext (toLowerCase n)) = "wing".
Proof.
  apply (searchTextures_entries demo_ext demo_join "tex" (Some demo_tree) ["Data/wing.tga"]).
  vm_compute. reflexivity.
Defined.







(** X14.  A file filed under a property name of [Object.prototype]
    (a required texture called constructor, say) ends the reading of its
    directory: the push throws, the [catch] of [searchDir] swallows it, and
    the entries listed after the file are never looked at. *)
Theorem search_stops_at_prototype_name ext join (rn : list string) (depth : nat)
    (dirPath name k : string) (rest : list Dirent)
    (found : gmap string (list string)) :
  wanted_key ext rn name = Some k → k ∈ object_prototype_keys → found !! k = None →
  search_loop ext join rn depth dirPath (FileEntry name :: rest) found = found.
Proof.
  intros Hk Hproto Hnone. cbn [search_loop]. rewrite search_entry_file, Hk.
  pose proof (found_push_cases found k (join dirPath name)) as Hcases.
  rewrite Hnone in Hcases. apply mem_string_iff in Hproto. rewrite Hproto in Hcases.
  destruct Hcases as (e & ->). done.
Qed.

Lemma search_stops_at_prototype_name_witness :
  search_loop demo_ext demo_join ["constructor"; "wing"] 0 "tex"
    (FileEntry "constructor.jpg" :: [FileEntry "wing.tga"]) ∅ = ∅.
Proof.
  apply (search_stops_at_prototype_name demo_ext demo_join _ 0 "tex"
           "constructor.jpg" "constructor").
  - reflexivity.
  - apply mem_string_iff. reflexivity.
  - apply lookup_empty.
Defined.

(** X15.  What [searchTextures] returns can be handed to
    [loadAndApplyTextures] in any order of its entries: the binder returns,
    no entry having an empty list of paths. *)
Theorem search_then_bind_returns ext join (startPath : string)
    (listing : option (list Dirent)) (requiredTextures : list string)
    (group : Object3D) (entries : FoundTextures) (w : World) :
  (∀ entry, entry ∈ entries →
     searchTextures ext join startPath listing requiredTextures !! entry.1
       = Some entry.2) →
  (loadAndApplyTextures ext group entries w).2 = Return tt.
Proof.
  intros Hentries. apply loadAndApplyTextures_returns_iff.
  intros entry Hin Hempty.
  destruct (searchTextures_entries ext join startPath listing requiredTextures
              entry.1 entry.2 (Hentries entry Hin)) as (_ & _ & Hne & _).
  done.
Qed.

Lemma search_then_bind_returns_witness :
  (loadAndApplyTextures demo_ext wing_group
     [("wing", ["tex/Wing.OZT"; "tex/sub/wing.tga"])] (world_of 1)).2 = Return tt.
Proof.
  apply (search_then_bind_returns demo_ext demo_join "tex" (Some demo_tree)
           ["Data/wing.tga"]).
  intros entry Hin%list_elem_of_singleton. subst entry. vm_compute. reflexivity.
Defined.

(** ** The depth cut *)

Lemma search_entry_prune ext join rn : ∀ e depth levels dirPath found,
  (depth + levels = 3)%nat →
  search_entry ext join rn depth dirPath (prune levels e) found
  = search_entry ext join rn depth dirPath e found.
Proof.
  intros e.
  induction e as [name | name | name es IH | name] using Dirent_induction;
    intros depth levels dirPath found Hsum; [done | | | done].
  - cbn [prune]. rewrite !search_entry_dir. unfold searchDir.
    by destruct levels, (3 <? depth + 1)%nat.
  - cbn [prune]. rewrite !search_entry_dir. unfold searchDir.
    destruct levels as [|n].
    + by replace (3 <? depth + 1)%nat with true by (symmetry; apply Nat.ltb_lt; lia).
    + destruct (3 <? depth + 1)%nat; [done|]. f_equal.
      revert found. induction IH as [|e es He _ IHes]; intros found; simpl; [done|].
      rewrite He by lia.
      destruct (search_entry ext join rn (depth + 1) (join dirPath name) e found); [apply IHes | done].
Qed.

(** X16.  The texture search depends on the first three levels below the
    start directory only: two trees that agree once every directory four
    levels down is made unreadable give the same result. *)
Theorem searchTextures_depth_cut ext join (startPath : string)
    (listing listing' : option (list Dirent)) (requiredTextures : list string) :
  prune_listing 3 listing = prune_listing 3 listing' →
  searchTextures ext join startPath listing requiredTextures
  = searchTextures ext join startPath listing' requiredTextures.
Proof.
  assert (Hcut : ∀ l, searchTextures ext join startPath (prune_listing 3 l) requiredTextures
                      = searchTextures ext join startPath l requiredTextures).
  { intros [es|]; [|done]. unfold searchTextures, searchDir. simpl.
    generalize (∅ : gmap string (list string)).
    induction es as [|e es IH]; intros found; simpl; [done|].
    rewrite search_entry_prune by done.
    destruct (search_entry _ _ _ _ _ e found); [apply IH | done]. }
  intros Heq. rewrite <- (Hcut listing), <- (Hcut listing'). by rewrite Heq.
Qed.

Lemma searchTextures_depth_cut_witness :
  searchTextures demo_ext demo_join "tex" (Some (deep_tree "wing.ozt")) ["wing.tga"]
  = searchTextures demo_ext demo_join "tex" (Some (deep_tree "wing.jpg")) ["wing.tga"].
Proof.
  apply (searchTextures_depth_cut demo_ext demo_join "tex"
           (Some (deep_tree "wing.ozt")) (Some (deep_tree "wing.jpg"))).
  reflexivity.
Defined.

(** ** The handler 'fs:findBmdFiles' of [electron/main.js] *)

Lemma findBmdFiles_entry_dir join depth dirPath name listing bmdFiles :
  findBmdFiles_entry join depth dirPath (DirEntry name listing) bmdFiles
  = findBmdFiles_searchDir join (depth + 1) (join dirPath name) listing bmdFiles.
Proof.
  simpl. unfold findBmdFiles_searchDir.
  destruct (5 <? depth + 1)%nat; [done|]. destruct listing as [es|]; [|done].
  revert bmdFiles. induction es as [|e es IH]; intros bmdFiles; simpl; [done|]. apply IH.
Qed.

Lemma bmd_paths_app join files files' :
  bmd_paths join (files ++ files') = bmd_paths join files ++ bmd_paths join files'.
Proof. unfold bmd_paths. by rewrite List.filter_app, List.map_app. Qed.

Lemma findBmdFiles_entry_paths join : ∀ e depth dirPath bmdFiles,
  findBmdFiles_entry join depth dirPath e bmdFiles
  = bmdFiles ++ bmd_paths join (visible_entry 5 join depth dirPath e).
Proof.
  intros e.
  induction e as [name | name | name es IH | name] using Dirent_induction;
    intros depth dirPath bmdFiles.
  - unfold bmd_paths. simpl. destruct (endsWith _ _); [done | by rewrite app_nil_r].
  - rewrite findBmdFiles_entry_dir, visible_entry_dir.
    unfold findBmdFiles_searchDir, visible_files.
    destruct (5 <? depth + 1)%nat; by rewrite app_nil_r.
  - rewrite findBmdFiles_entry_dir, visible_entry_dir.
    unfold findBmdFiles_searchDir, visible_files.
    destruct (5 <? depth + 1)%nat; [by rewrite app_nil_r|].
    revert bmdFiles. induction IH as [|e es He _ IHes]; intros bmdFiles; simpl.
    + by rewrite app_nil_r.
    + rewrite He, IHes, bmd_paths_app. by rewrite <- app_assoc.
  - by rewrite app_nil_r.
Qed.

(** X17.  The handler 'fs:findBmdFiles' returns, in the order of
    discovery, the paths of the regular files whose lower-cased name ends
    in .bmd and which sit at most five directories below the start; it
    skips the directories it cannot read and everything that is neither a
    file nor a directory. *)
Theorem fs_findBmdFiles_paths join (startPath : string) (listing : option (list Dirent)) :
  fs_findBmdFiles join startPath listing
  = bmd_paths join (visible_files 5 join 0 startPath listing).
Proof.
  unfold fs_findBmdFiles, findBmdFiles_searchDir, visible_files. simpl.
  destruct listing as [es|]; [|done].
  change (bmd_paths join (flat_map (visible_entry 5 join 0 startPath) es))
    with ([] ++ bmd_paths join (flat_map (visible_entry 5 join 0 startPath) es)).
  generalize (@nil string).
  induction es as [|e es IH]; intros bmdFiles; simpl.
  - by rewrite app_nil_r.
  - rewrite findBmdFiles_entry_paths, IH, bmd_paths_app. by rewrite <- app_assoc.
Qed.

(** ** [findBmdFiles] of [bmd-to-glb.ts] *)

Lemma StatEntry_induction (P : StatEntry → Prop) :
  (∀ name, P (StatFile name)) →
  (∀ name e, P (StatDir name (inl e))) →
  (∀ name items, Forall P items → P (StatDir name (inr items))) →
  (∀ name e, P (StatThrows name e)) →
  ∀ item, P item.
Proof.
  intros Hf Hn Hs Ht. fix IH 1.
  intros [name | name [e|items] | name e]; [apply Hf | apply Hn | | apply Ht].
  apply Hs. induction items as [|i items IHitems]; constructor; [apply IH | apply IHitems].
Qed.

Lemma findBmdFiles_item_dir ext join current name listing files :
  findBmdFiles_item ext join current (StatDir name listing) files
  = findBmdFiles_traverse ext join (join current name) listing files.
Proof.
  simpl. unfold findBmdFiles_traverse. destruct listing as [e|items]; [done|].
  revert files. induction items as [|i items IH]; intros files; simpl; [done|].
  destruct (findBmdFiles_item ext join (join current name) i files) as [files'|e].
  - apply IH.
  - clear. induction items as [|i items IH]; simpl; [done | apply IH].
Qed.

Lemma bmd_by_extname_app ext join files files' :
  bmd_by_extname ext join (files ++ files')
  = bmd_by_extname ext join files ++ bmd_by_extname ext join files'.
Proof. unfold bmd_by_extname. by rewrite List.filter_app, List.map_app. Qed.

Lemma foldl_Throw ext join current items (e : exn) :
  foldl (λ r i,
           match r with
           | Return files => findBmdFiles_item ext join current i files
           | Throw e => Throw e
           end) (Throw e) items = Throw e.
Proof. induction items as [|i items IH]; simpl; [done | apply IH]. Qed.

Lemma findBmdFiles_items_outcome ext join current items :
  Forall (λ item, ∀ current files,
            findBmdFiles_item ext join current item files
            = match stat_errors item with
              | e :: _ => Throw e
              | [] => Return (files ++ bmd_by_extname ext join (stat_files join current item))
              end) items →
  ∀ files,
    findBmdFiles_traverse ext join current (inr items) files
    = match flat_map stat_errors items with
      | e :: _ => Throw e
      | [] => Return (files ++ bmd_by_extname ext join
                                 (flat_map (stat_files join current) items))
      end.
Proof.
  unfold findBmdFiles_traverse.
  induction 1 as [|i items Hi _ IH]; intros files; simpl.
  - by rewrite app_nil_r.
  - rewrite Hi. destruct (stat_errors i) as [|e errs]; simpl.
    + rewrite IH, bmd_by_extname_app.
      destruct (flat_map stat_errors items); [by rewrite <- app_assoc | done].
    + apply foldl_Throw.
Qed.

Lemma findBmdFiles_item_outcome ext join : ∀ item current files,
  findBmdFiles_item ext join current item files
  = match stat_errors item with
    | e :: _ => Throw e
    | [] => Return (files ++ bmd_by_extname ext join (stat_files join current item))
    end.
Proof.
  intros item.
  induction item as [name | name e | name items IH | name e] using StatEntry_induction;
    intros current files; [| done | | done].
  - unfold bmd_by_extname. simpl.
    destruct (String.eqb _ ".bmd"); [done | by rewrite app_nil_r].
  - rewrite findBmdFiles_item_dir. by apply findBmdFiles_items_outcome.
Qed.

(** X18.  [findBmdFiles] is all or nothing: it throws the first exception
    a traversal of the whole tree meets (an unreadable directory, an item
    that cannot be examined), wherever it is and whether or not a model
    file is near; when there is none it returns the paths of the
    non-directories whose extension is .bmd in any case, at any depth, in
    the order of discovery. *)
Theorem findBmdFiles_all_or_nothing ext join (dir : string)
    (listing : exn + list StatEntry) :
  findBmdFiles ext join dir listing
  = match listing_errors listing with
    | e :: _ => Throw e
    | [] => Return (bmd_by_extname ext join (listing_files join dir listing))
    end.
Proof.
  unfold findBmdFiles. destruct listing as [e|items]; [done|].
  rewrite findBmdFiles_items_outcome; [done|].
  apply Forall_forall. intros item _. apply findBmdFiles_item_outcome.
Qed.

(** ** The double decode of [loadAndApplyTexture] *)

Lemma logs_only_ret {A} (a : A) : logs_only (ret a).
Proof. exists [], [], (Return a). intros [ev co ma di]. unfold ret. simpl. by rewrite !app_nil_r. Qed.

Lemma logs_only_throw {A} e : logs_only (@throw A e).
Proof. exists [], [], (Throw e). intros [ev co ma di]. unfold throw. simpl. by rewrite !app_nil_r. Qed.

Lemma logs_only_emit e : logs_only (emit e).
Proof. exists [e], [], (Return tt). intros [ev co ma di]. unfold emit. simpl. by rewrite !app_nil_r. Qed.

Lemma logs_only_console_log s : logs_only (console_log s).
Proof. exists [], [s], (Return tt). intros [ev co ma di]. unfold console_log. simpl. by rewrite !app_nil_r. Qed.

Lemma logs_only_bind {A B} (m : M A) (k : A → M B) :
  logs_only m → (∀ a, logs_only (k a)) → logs_only (bind m k).
Proof.
  intros (evs & lines & [a|e] & Hm) Hk.
  - destruct (Hk a) as (evs' & lines' & r & Hka).
    exists (evs ++ evs'), (lines ++ lines'), r. intros w.
    unfold bind. rewrite Hm, Hka. simpl. by rewrite !app_assoc.
  - exists evs, lines, (Throw e). intros w. unfold bind. by rewrite Hm.
Qed.

Lemma logs_only_try_catch {A} (m : M A) (h : exn → M A) :
  logs_only m → (∀ e, logs_only (h e)) → logs_only (try_catch m h).
Proof.
  intros (evs & lines & [a|e] & Hm) Hh.
  - exists evs, lines, (Return a). intros w. unfold try_catch. by rewrite Hm.
  - destruct (Hh e) as (evs' & lines' & r & Hhe).
    exists (evs ++ evs'), (lines ++ lines'), r. intros w.
    unfold try_catch. rewrite Hm, Hhe. simpl. by rewrite !app_assoc.
Qed.

Lemma logs_only_for_each {A S} (xs : list A) (body : A → S → M S) s :
  (∀ x s, logs_only (body x s)) → logs_only (for_each xs body s).
Proof.
  intros Hbody. revert s. induction xs as [|x xs IH]; intros s; simpl.
  - apply logs_only_ret.
  - apply logs_only_bind; [apply Hbody | intros s'; apply IH].
Qed.

Ltac logs_only :=
  repeat first
    [ apply logs_only_ret | apply logs_only_throw | apply logs_only_emit
    | apply logs_only_console_log
    | apply logs_only_bind; [|intros ?] | apply logs_only_try_catch; [|intros ?]
    | apply logs_only_for_each; intros ? ?
    | match goal with
      | |- logs_only (if ?c then _ else _) => destruct c
      | |- logs_only (match ?x with _ => _ end) => destruct x
      end ].

Lemma logs_only_call_codec {A} op input (r : outcome A) : logs_only (call_codec op input r).
Proof. unfold call_codec. logs_only. Qed.

Lemma logs_only_scan_marker buf idx : logs_only (scan_marker buf idx).
Proof.
  induction idx as [|i idx IH]; simpl; [apply logs_only_ret|].
  unfold u8_get. logs_only; exact IH.
Qed.

Lemma logs_only_convertOzjToBuffer ext buf : logs_only (convertOzjToBuffer ext buf).
Proof.
  unfold convertOzjToBuffer, sniff, ozjToPng, oztToPng, ozt_row, ozt_pixel,
    view_getInt16, view_getUint8, u8_get.
  apply logs_only_bind.
  - apply logs_only_bind; [apply logs_only_scan_marker|]. intros k. logs_only.
  - intros c. logs_only; apply logs_only_call_codec.
Qed.

Lemma logs_only_decode_file ext ext_ buf : logs_only (decode_file ext ext_ buf).
Proof.
  unfold decode_file. destruct (String.eqb ext_ ".tga").
  - apply logs_only_call_codec.
  - apply logs_only_convertOzjToBuffer.
Qed.

(** X19.  A TGA or OZ file that [loadAndApplyTexture] loads is decoded
    twice: once for the pixels of the texture, once more inside the
    data-URL conversion, with the same reads and codec calls, followed by a
    single PNG encoding of the bitmap. *)
Theorem oz_load_decodes_twice ext (filePath : string) (buf : Buffer) (w : World)
    (tex : Texture) :
  readFileSync ext filePath = Return buf →
  toLowerCase (path_extname ext filePath) ∈ [".tga"; ".ozj"; ".ozt"] →
  (load_texture ext filePath w).2 = Return tex →
  ∃ evs b,
    (∀ w', events (decode_file ext (toLowerCase (path_extname ext filePath)) buf w').1
             = events w' ++ evs
           ∧ (decode_file ext (toLowerCase (path_extname ext filePath)) buf w').2
             = Return b)
    ∧ events (load_texture ext filePath w).1
      = events w ++ evs ++ evs ++ [Codec "sharp.png" (buffer b)].
Proof.
  intros Hread Hext.
  destruct (logs_only_decode_file ext (toLowerCase (path_extname ext filePath)) buf)
    as (evs & lines & r & Hrun).
  unfold load_texture, convertTgaToDataUrl, convertOzjToDataUrl. rewrite Hread.
  unfold decode_file in *.
  destruct (String.eqb (toLowerCase (path_extname ext filePath)) ".tga") eqn:Htga.
  - unfold bind, lift, ret. simpl. rewrite Hrun. destruct r as [b|e]; [|discriminate].
    rewrite Hrun. unfold png_data_url, call_codec, bind, emit, ret, throw. simpl.
    destruct (sharp_png ext (buffer b) (width b) (height b)); [|discriminate].
    intros _. exists evs, b. split.
    + intros w'. by rewrite Hrun.
    + simpl. by rewrite <- !app_assoc.
  - assert (Hoz : String.eqb (toLowerCase (path_extname ext filePath)) ".ozj"
                  || String.eqb (toLowerCase (path_extname ext filePath)) ".ozt" = true).
    { apply elem_of_cons in Hext as [H|Hext]; [rewrite H in Htga; discriminate Htga|].
      apply elem_of_cons in Hext as [H|Hext]; [by rewrite H|].
      apply list_elem_of_singleton in Hext. by rewrite Hext. }
    rewrite Hoz.
    unfold bind, lift, ret. simpl. rewrite Hrun. destruct r as [b|e]; [|discriminate].
    rewrite Hrun. unfold png_data_url, call_codec, bind, emit, ret, throw. simpl.
    destruct (sharp_png ext (buffer b) (width b) (height b)); [|discriminate].
    intros _. exists evs, b. split.
    + intros w'. by rewrite Hrun.
    + simpl. by rewrite <- !app_assoc.
Qed.

Lemma oz_load_decodes_twice_witness :
  ∃ evs b,
    (∀ w', events (decode_file demo_ext (toLowerCase (path_extname demo_ext "tex/wing.tga"))
                     [x00] w').1 = events w' ++ evs
           ∧ (decode_file demo_ext (toLowerCase (path_extname demo_ext "tex/wing.tga"))
                [x00] w').2 = Return b)
    ∧ events (load_texture demo_ext "tex/wing.tga" empty_world).1
      = events empty_world ++ evs ++ evs ++ [Codec "sharp.png" (buffer b)].
Proof.
  apply (oz_load_decodes_twice demo_ext "tex/wing.tga" [x00] empty_world
           (finish_texture "wing.tga"
              (texture_needsUpdate (set_src "data:image/png;base64," (DataTexture red_pixel))))).
  - reflexivity.
  - apply elem_of_cons. left. reflexivity.
  - vm_compute. reflexivity.
Defined.
